(** * Audit trail of easyapplyai: hash chain, ledger, store and verifier

    A shallow embedding of [app/hashing.py], [app/audit.py],
    [app/storage.py] (the audit table), [app/settings.py]
    ([artifacts_dir_for]) and [app/cli_verify_audit.py], together with
    the library functions they call: [hashlib.sha256], [orjson.dumps]
    with [OPT_SORT_KEYS], [json.loads], [str.splitlines] and
    [str.strip].

    Conventions.  A Python [str] is held as the string of its UTF-8
    octets, so [s.encode("utf-8")] is the identity and [bytes] are
    strings of octets too.  A Python [dict] is an association list in
    insertion order. *)

From Stdlib Require Import ZArith NArith String Ascii List Bool Lia.
From Stdlib Require Import DecimalString DecimalFacts DecimalPos DecimalZ.
From stdpp Require Import gmap strings.
Import ListNotations.

#[local] Set Warnings "-register-all".
Local Open Scope string_scope.
Local Open Scope Z_scope.

(** ** hashlib.sha256 (FIPS 180-4), on 32-bit words held in [Z] *)

Module SHA256.

Definition wrap32 (x : Z) : Z := x mod 2 ^ 32.
Definition add32 (x y : Z) : Z := wrap32 (x + y).
Definition rotr (n x : Z) : Z :=
  wrap32 (Z.lor (Z.shiftr x n) (Z.shiftl x (32 - n))).
Definition not32 (x : Z) : Z := Z.lxor x 0xffffffff.

Definition ch (x y z : Z) : Z := Z.lxor (Z.land x y) (Z.land (not32 x) z).
Definition maj (x y z : Z) : Z :=
  Z.lxor (Z.lxor (Z.land x y) (Z.land x z)) (Z.land y z).
Definition bsig0 (x : Z) : Z := Z.lxor (Z.lxor (rotr 2 x) (rotr 13 x)) (rotr 22 x).
Definition bsig1 (x : Z) : Z := Z.lxor (Z.lxor (rotr 6 x) (rotr 11 x)) (rotr 25 x).
Definition ssig0 (x : Z) : Z := Z.lxor (Z.lxor (rotr 7 x) (rotr 18 x)) (Z.shiftr x 3).
Definition ssig1 (x : Z) : Z := Z.lxor (Z.lxor (rotr 17 x) (rotr 19 x)) (Z.shiftr x 10).

(** The first sixty-four primes. *)
Definition primes : list Z :=
  [2; 3; 5; 7; 11; 13; 17; 19; 23; 29; 31; 37; 41; 43; 47; 53;
   59; 61; 67; 71; 73; 79; 83; 89; 97; 101; 103; 107; 109; 113; 127; 131;
   137; 139; 149; 151; 157; 163; 167; 173; 179; 181; 191; 193; 197; 199;
   211; 223; 227; 229; 233; 239; 241; 251; 257; 263; 269; 271; 277; 281;
   283; 293; 307; 311].

(** The integer cube root, one bit at a time from bit [bits - 1] down. *)
Fixpoint cube_root (bits : nat) (n r : Z) : Z :=
  match bits with
  | O => r
  | S b =>
      let c := r + 2 ^ Z.of_nat b in
      cube_root b n (if c * c * c <=? n then c else r)
  end.

(** The round constants: the first 32 bits of the fractional parts of
    the cube roots of the primes. *)
Definition round_constants : list Z :=
  Eval vm_compute in
    map (fun p => wrap32 (cube_root 40 (p * 2 ^ 96) 0)) primes.

(** The eight working variables a..h, also the chaining value. *)
Record regs := Regs {
  ra : Z; rb : Z; rc : Z; rd : Z; re : Z; rf : Z; rg : Z; rh : Z }.

(** The initial value: the first 32 bits of the fractional parts of
    the square roots of the first eight primes. *)
Definition root_bits (p : Z) : Z := wrap32 (Z.sqrt (p * 2 ^ 64)).

Definition initial_regs : regs :=
  Eval vm_compute in
    Regs (root_bits 2) (root_bits 3) (root_bits 5) (root_bits 7)
         (root_bits 11) (root_bits 13) (root_bits 17) (root_bits 19).

Definition octet (c : ascii) : Z := Z.of_N (N_of_ascii c).

(** Padding: a 1 bit, zero bits up to 56 mod 64 octets, then the bit
    length as a 64-bit big-endian integer. *)
Definition be64 (n : Z) : list Z :=
  map (fun i => Z.shiftr n (8 * i) mod 256) [7; 6; 5; 4; 3; 2; 1; 0].

Definition pad (msg : list Z) : list Z :=
  let len := Z.of_nat (length msg) in
  let zeros := Z.to_nat ((55 - len) mod 64) in
  msg ++ 0x80 :: repeat 0 zeros ++ be64 (8 * len).

Fixpoint be_words (bs : list Z) : list Z :=
  match bs with
  | b0 :: b1 :: b2 :: b3 :: rest =>
      (Z.shiftl b0 24 + Z.shiftl b1 16 + Z.shiftl b2 8 + b3) :: be_words rest
  | _ => []
  end.

(** Message schedule, newest word first: [extend k w] adds [k] words. *)
Fixpoint extend (k : nat) (rev_w : list Z) : list Z :=
  match k with
  | O => rev_w
  | S k' =>
      let w := fun i => nth i rev_w 0 in
      extend k' (add32 (add32 (ssig1 (w 1%nat)) (w 6%nat))
                       (add32 (ssig0 (w 14%nat)) (w 15%nat)) :: rev_w)
  end.

Definition schedule (block : list Z) : list Z :=
  rev (extend 48 (rev block)).

Definition round (s : regs) (kw : Z * Z) : regs :=
  let t1 := add32 (add32 (add32 (rh s) (bsig1 (re s)))
                         (add32 (ch (re s) (rf s) (rg s)) (fst kw))) (snd kw) in
  let t2 := add32 (bsig0 (ra s)) (maj (ra s) (rb s) (rc s)) in
  Regs (add32 t1 t2) (ra s) (rb s) (rc s) (add32 (rd s) t1) (re s) (rf s) (rg s).

Definition compress (h : regs) (block : list Z) : regs :=
  let s := fold_left round (combine round_constants (schedule block)) h in
  Regs (add32 (ra h) (ra s)) (add32 (rb h) (rb s)) (add32 (rc h) (rc s))
       (add32 (rd h) (rd s)) (add32 (re h) (re s)) (add32 (rf h) (rf s))
       (add32 (rg h) (rg s)) (add32 (rh h) (rh s)).

Fixpoint blocks (n : nat) (ws : list Z) : list (list Z) :=
  match n with
  | O => []
  | S n' =>
      match ws with
      | [] => []
      | _ => firstn 16 ws :: blocks n' (skipn 16 ws)
      end
  end.

Definition digest_regs (msg : string) : regs :=
  let ws := be_words (pad (map octet (list_ascii_of_string msg))) in
  fold_left compress (blocks (length ws) ws) initial_regs.

Definition hex_digit (n : Z) : ascii :=
  nth (Z.to_nat n) (list_ascii_of_string "0123456789abcdef") "0"%char.

Definition hex_word (w : Z) : list ascii :=
  map (fun i => hex_digit (Z.shiftr w (4 * i) mod 16)) [7; 6; 5; 4; 3; 2; 1; 0].

(** [sha256(b).hexdigest()] *)
Definition hexdigest (msg : string) : string :=
  let r := digest_regs msg in
  string_of_list_ascii
    (concat (map hex_word [ra r; rb r; rc r; rd r; re r; rf r; rg r; rh r])).

End SHA256.

(** ** Outcomes of Python calls *)

Inductive exn :=
| JSONEncodeError   (* orjson.dumps: value it cannot serialise *)
| JSONDecodeError   (* json.loads: text that is not JSON *)
| TypeError         (* chain_next: prev_hash neither None nor str *)
| AttributeError    (* verify_chain: a line that is not a JSON object *)
| KeyError          (* verify_chain: events[0] has no run_id *)
| ValidationError   (* pydantic: AuditEvent rejects a field *)
| OperationalError  (* the SQL session fails *)
| OverflowError     (* SQLite INTEGER beyond 64 bits *)
| OSError           (* mkdir, open or write fails *)
| UnicodeDecodeError (* read_text: octets that are not UTF-8 *)
| OutsideModel.     (* Python values this development does not represent *)

Inductive result (A : Type) :=
| Ok (a : A)
| Raise (e : exn).
Arguments Ok {A} a.
Arguments Raise {A} e.

Definition bind {A B} (r : result A) (k : A -> result B) : result B :=
  match r with
  | Ok a => k a
  | Raise e => Raise e
  end.

Notation "'let*' x ':=' r 'in' k" := (bind r (fun x => k))
  (at level 10, x pattern, r at level 200, k at level 200).

Definition is_ok {A} (r : result A) : bool :=
  match r with Ok _ => true | Raise _ => false end.

(** ** Python values that reach the audit trail

    [details] is a [Dict[str, Any]].  The values represented are None,
    bool, int, the three non-finite floats, str, list, dict with str
    keys, and [VObject] for an object of a type orjson has no encoding
    for (a set, a bytes object, an instance of a plain class).  Finite
    floats are left out: their text is the shortest round-trip
    decimal, which is floating-point arithmetic. *)

Inductive nonfinite := NaN | PosInf | NegInf.

Inductive value :=
| VNone
| VBool (b : bool)
| VInt (n : Z)
| VFloat (f : nonfinite)
| VStr (s : string)
| VList (l : list value)
| VDict (d : list (string * value))
| VObject.

Definition dict := list (string * value).

(** Induction over the nesting of lists and dicts. *)
Section value_induction.
Variable P : value -> Prop.
Hypothesis HNone : P VNone.
Hypothesis HBool : forall b, P (VBool b).
Hypothesis HInt : forall n, P (VInt n).
Hypothesis HFloat : forall f, P (VFloat f).
Hypothesis HStr : forall s, P (VStr s).
Hypothesis HList : forall l, Forall P l -> P (VList l).
Hypothesis HDict : forall d, Forall (fun kv => P (snd kv)) d -> P (VDict d).
Hypothesis HObject : P VObject.

Fixpoint value_nested_ind (v : value) : P v :=
  match v with
  | VNone => HNone
  | VBool b => HBool b
  | VInt n => HInt n
  | VFloat f => HFloat f
  | VStr s => HStr s
  | VList l =>
      HList l ((fix go (l : list value) : Forall P l :=
                  match l with
                  | [] => @List.Forall_nil _ P
                  | x :: r => @List.Forall_cons _ P x r (value_nested_ind x) (go r)
                  end) l)
  | VDict d =>
      HDict d ((fix go (d : list (string * value))
                  : Forall (fun kv => P (snd kv)) d :=
                  match d with
                  | [] => @List.Forall_nil _ _
                  | kv :: r =>
                      @List.Forall_cons _ _ kv r (value_nested_ind (snd kv)) (go r)
                  end) d)
  | VObject => HObject
  end.
End value_induction.

(** dict operations used by the sources *)

(** [d.get(k)] *)
Fixpoint dict_get (k : string) (d : dict) : option value :=
  match d with
  | [] => None
  | (k', v) :: r => if String.eqb k k' then Some v else dict_get k r
  end.

(** [d[k] = v]: an existing key keeps its position. *)
Fixpoint dict_set (k : string) (v : value) (d : dict) : dict :=
  match d with
  | [] => [(k, v)]
  | (k', v') :: r =>
      if String.eqb k k' then (k, v) :: r else (k', v') :: dict_set k v r
  end.

(** [{k: d[k] for k in d.keys() if k != x}] *)
Definition dict_without (x : string) (d : dict) : dict :=
  List.filter (fun kv => negb (String.eqb (fst kv) x)) d.

(** ** orjson.dumps(v, option=orjson.OPT_SORT_KEYS)

    Compact JSON.  orjson writes the non-finite floats as [null],
    rejects an int outside the signed and unsigned 64-bit ranges and
    any object of a type it does not know, and with OPT_SORT_KEYS emits
    the items of every dict in ascending order of the key's UTF-8
    octets.  Its limit on nesting depth is not modelled. *)

Module Orjson.

Definition hex_char (n : N) : ascii := SHA256.hex_digit (Z.of_N n).

Definition dquote : string := String (ascii_of_N 34) "".

(** One octet of a str inside a JSON string. *)
Definition escape_char (c : ascii) : string :=
  let n := N_of_ascii c in
  if (n =? 34)%N then String "\" dquote
  else if (n =? 92)%N then "\\"
  else if (n =? 8)%N then "\b"
  else if (n =? 9)%N then "\t"
  else if (n =? 10)%N then "\n"
  else if (n =? 12)%N then "\f"
  else if (n =? 13)%N then "\r"
  else if (n <? 32)%N then
    "\u00" ++ String (hex_char (n / 16)) (String (hex_char (n mod 16)) "")
  else String c "".

Fixpoint escape (s : string) : string :=
  match s with
  | EmptyString => ""
  | String c r => escape_char c ++ escape r
  end.

Definition quote (s : string) : string := dquote ++ escape s ++ dquote.

Definition int_fits (n : Z) : bool :=
  (- 2 ^ 63 <=? n) && (n <? 2 ^ 64).

Definition decimal (n : Z) : string := NilZero.string_of_int (Z.to_int n).

(** Insertion sort of the encoded items by key. *)
Fixpoint insert_item {A} (kv : string * A) (l : list (string * A))
  : list (string * A) :=
  match l with
  | [] => [kv]
  | h :: t =>
      if String.leb (fst kv) (fst h) then kv :: l else h :: insert_item kv t
  end.

Definition sort_items {A} (l : list (string * A)) : list (string * A) :=
  fold_right insert_item [] l.

Definition member (kv : string * string) : string :=
  quote (fst kv) ++ ":" ++ snd kv.

Fixpoint dumps (v : value) : result string :=
  match v with
  | VNone => Ok "null"
  | VBool true => Ok "true"
  | VBool false => Ok "false"
  | VInt n => if int_fits n then Ok (decimal n) else Raise JSONEncodeError
  | VFloat _ => Ok "null"
  | VStr s => Ok (quote s)
  | VList l =>
      let* parts :=
        (fix each (l : list value) : result (list string) :=
           match l with
           | [] => Ok []
           | x :: r =>
               let* sx := dumps x in
               let* sr := each r in
               Ok (sx :: sr)
           end) l in
      Ok ("[" ++ String.concat "," parts ++ "]")
  | VDict d =>
      let* items :=
        (fix each (d : list (string * value))
           : result (list (string * string)) :=
           match d with
           | [] => Ok []
           | (k, x) :: r =>
               let* sx := dumps x in
               let* sr := each r in
               Ok ((k, sx) :: sr)
           end) d in
      Ok ("{" ++ String.concat "," (map member (sort_items items)) ++ "}")
  | VObject => Raise JSONEncodeError
  end.

End Orjson.

(** Examples write JSON text with ['] where the text has a double
    quote. *)
Definition js (s : string) : string :=
  string_of_list_ascii
    (map (fun c => if (N_of_ascii c =? 39)%N then ascii_of_N 34 else c)
         (list_ascii_of_string s)).

(** ** json.loads (CPython's C scanner, default arguments)

    Whitespace is space, tab, LF and CR.  A number with a fraction or
    an exponent is a finite float and a [\u] escape that leaves a lone
    surrogate gives a str without UTF-8 form: both are [OutsideModel],
    as is an int literal longer than CPython's default digit limit. *)

Module Json.

Definition is_char (c : ascii) (n : N) : bool := (N_of_ascii c =? n)%N.

Definition is_ws (c : ascii) : bool :=
  is_char c 32 || is_char c 9 || is_char c 10 || is_char c 13.

Fixpoint skip_ws (s : string) : string :=
  match s with
  | String c r => if is_ws c then skip_ws r else s
  | EmptyString => EmptyString
  end.

(** [s.startswith(p)], giving what follows [p]. *)
Fixpoint after_prefix (p s : string) : option string :=
  match p, s with
  | EmptyString, _ => Some s
  | String a p', String b s' => if Ascii.eqb a b then after_prefix p' s' else None
  | String _ _, EmptyString => None
  end.

Definition hex_val (c : ascii) : option N :=
  let n := N_of_ascii c in
  if (48 <=? n)%N && (n <=? 57)%N then Some (n - 48)%N
  else if (97 <=? n)%N && (n <=? 102)%N then Some (n - 87)%N
  else if (65 <=? n)%N && (n <=? 70)%N then Some (n - 55)%N
  else None.

Definition hex4 (a b c d : ascii) : option N :=
  match hex_val a, hex_val b, hex_val c, hex_val d with
  | Some x, Some y, Some z, Some w => Some (((x * 16 + y) * 16 + z) * 16 + w)%N
  | _, _, _, _ => None
  end.

Definition chr (n : N) : ascii := ascii_of_N n.

(** The UTF-8 octets of a code point that is not a surrogate. *)
Definition utf8 (cp : N) : string :=
  (if cp <? 0x80 then String (chr cp) ""
   else if cp <? 0x800 then
     String (chr (0xC0 + cp / 64)) (String (chr (0x80 + cp mod 64)) "")
   else if cp <? 0x10000 then
     String (chr (0xE0 + cp / 4096))
       (String (chr (0x80 + (cp / 64) mod 64)) (String (chr (0x80 + cp mod 64)) ""))
   else
     String (chr (0xF0 + cp / 262144))
       (String (chr (0x80 + (cp / 4096) mod 64))
          (String (chr (0x80 + (cp / 64) mod 64))
             (String (chr (0x80 + cp mod 64)) ""))))%N.

Definition high_surrogate (cp : N) : bool := ((0xD800 <=? cp) && (cp <=? 0xDBFF))%N.
Definition low_surrogate (cp : N) : bool := ((0xDC00 <=? cp) && (cp <=? 0xDFFF))%N.
Definition join_surrogates (hi lo : N) : N :=
  (0x10000 + (hi - 0xD800) * 0x400 + (lo - 0xDC00))%N.

Definition simple_escape (e : ascii) : option ascii :=
  let n := N_of_ascii e in
  if (n =? 34)%N then Some (chr 34)          (* quote *)
  else if (n =? 92)%N then Some (chr 92)     (* backslash *)
  else if (n =? 47)%N then Some (chr 47)     (* slash *)
  else if (n =? 98)%N then Some (chr 8)      (* b *)
  else if (n =? 102)%N then Some (chr 12)    (* f *)
  else if (n =? 110)%N then Some (chr 10)    (* n *)
  else if (n =? 114)%N then Some (chr 13)    (* r *)
  else if (n =? 116)%N then Some (chr 9)     (* t *)
  else None.

(** The body of a string, after the opening quote (strict mode). *)
Fixpoint scan_string (s : string) : result (string * string) :=
  match s with
  | EmptyString => Raise JSONDecodeError
  | String c r =>
      if is_char c 34 then Ok (EmptyString, r)
      else if is_char c 92 then
        match r with
        | EmptyString => Raise JSONDecodeError
        | String e r1 =>
            match simple_escape e with
            | Some ch =>
                let* (t, rest) := scan_string r1 in Ok (String ch t, rest)
            | None =>
                if is_char e 117 then
                  match r1 with
                  | String h1 (String h2 (String h3 (String h4 r2))) =>
                      match hex4 h1 h2 h3 h4 with
                      | None => Raise JSONDecodeError
                      | Some cp =>
                          if high_surrogate cp then
                            match r2 with
                            | String b (String u (String l1 (String l2
                                (String l3 (String l4 r3))))) =>
                                if is_char b 92 && is_char u 117 then
                                  match hex4 l1 l2 l3 l4 with
                                  | Some lo =>
                                      if low_surrogate lo then
                                        let* (t, rest) := scan_string r3 in
                                        Ok (utf8 (join_surrogates cp lo) ++ t, rest)
                                      else Raise OutsideModel
                                  | None => Raise OutsideModel
                                  end
                                else Raise OutsideModel
                            | _ => Raise OutsideModel
                            end
                          else if low_surrogate cp then Raise OutsideModel
                          else
                            let* (t, rest) := scan_string r2 in
                            Ok (utf8 cp ++ t, rest)
                      end
                  | _ => Raise JSONDecodeError
                  end
                else Raise JSONDecodeError
            end
        end
      else if (N_of_ascii c <? 32)%N then Raise JSONDecodeError
      else let* (t, rest) := scan_string r in Ok (String c t, rest)
  end.

Definition digit_of (c : ascii) : option (Decimal.uint -> Decimal.uint) :=
  match c with
  | "0" => Some Decimal.D0 | "1" => Some Decimal.D1 | "2" => Some Decimal.D2
  | "3" => Some Decimal.D3 | "4" => Some Decimal.D4 | "5" => Some Decimal.D5
  | "6" => Some Decimal.D6 | "7" => Some Decimal.D7 | "8" => Some Decimal.D8
  | "9" => Some Decimal.D9 | _ => None
  end%char.

Definition is_digit (c : ascii) : bool :=
  match digit_of c with Some _ => true | None => false end.

Fixpoint scan_digits (s : string) : Decimal.uint * string :=
  match s with
  | EmptyString => (Decimal.Nil, EmptyString)
  | String c r =>
      match digit_of c with
      | Some d => let '(u, rest) := scan_digits r in (d u, rest)
      | None => (Decimal.Nil, s)
      end
  end.

(** Does a fraction (a dot and a digit) or an exponent (e or E, an
    optional sign, a digit) follow? *)
Definition float_follows (s : string) : bool :=
  match s with
  | String c (String d r) =>
      if is_char c 46 then is_digit d
      else if is_char c 101 || is_char c 69 then
        if is_digit d then true
        else if is_char d 43 || is_char d 45 then
          match r with String d' _ => is_digit d' | EmptyString => false end
        else false
      else false
  | _ => false
  end.

Definition max_str_digits : nat := 4300.

(** The integer part: an optional minus sign, then either a single 0
    or a non-zero digit and any digits.  [None] when [s] does not start
    with one. *)
Definition scan_int (s : string) : option (Decimal.int * string) :=
  let '(neg, s1) :=
    match s with
    | String c r => if is_char c 45 then (true, r) else (false, s)
    | EmptyString => (false, s)
    end in
  let sign := fun u => if neg : bool then Decimal.Neg u else Decimal.Pos u in
  match s1 with
  | String c r =>
      if is_char c 48 then Some (sign (Decimal.D0 Decimal.Nil), r)
      else if is_digit c then
        let '(u, rest) := scan_digits s1 in Some (sign u, rest)
      else None
  | EmptyString => None
  end.

Definition int_digits (i : Decimal.int) : nat :=
  match i with
  | Decimal.Pos u | Decimal.Neg u => Decimal.nb_digits u
  end.

Definition scan_number (s : string) : option (result (value * string)) :=
  match scan_int s with
  | None => None
  | Some (i, rest) =>
      if float_follows rest then Some (Raise OutsideModel)
      else if Nat.ltb max_str_digits (int_digits i) then Some (Raise OutsideModel)
      else Some (Ok (VInt (Z.of_int i), rest))
  end.

(** A value that is neither a string, an object nor an array. *)
Definition scan_atom (s : string) : result (value * string) :=
  match after_prefix "null" s with
  | Some r => Ok (VNone, r)
  | None =>
  match after_prefix "true" s with
  | Some r => Ok (VBool true, r)
  | None =>
  match after_prefix "false" s with
  | Some r => Ok (VBool false, r)
  | None =>
  match scan_number s with
  | Some res => res
  | None =>
  match after_prefix "NaN" s with
  | Some r => Ok (VFloat NaN, r)
  | None =>
  match after_prefix "Infinity" s with
  | Some r => Ok (VFloat PosInf, r)
  | None =>
  match after_prefix "-Infinity" s with
  | Some r => Ok (VFloat NegInf, r)
  | None => Raise JSONDecodeError
  end end end end end end end.

(** [scan_once] at a position where whitespace has been skipped;
    [elements] and [members] read what follows the opening bracket once
    it is known that the container is not empty.  The first argument
    bounds the number of nested calls. *)
Fixpoint scan_once (n : nat) (s : string) {struct n} : result (value * string) :=
  match n with
  | O => Raise OutsideModel
  | S n' =>
      match s with
      | EmptyString => Raise JSONDecodeError
      | String c r =>
          if is_char c 34 then
            let* (t, rest) := scan_string r in Ok (VStr t, rest)
          else if is_char c 123 then
            match skip_ws r with
            | String c1 r1 =>
                if is_char c1 125 then Ok (VDict [], r1)
                else
                  let* (kvs, rest) := members n' (String c1 r1) in
                  Ok (VDict (fold_left (fun d kv => dict_set (fst kv) (snd kv) d) kvs []),
                      rest)
            | EmptyString => Raise JSONDecodeError
            end
          else if is_char c 91 then
            match skip_ws r with
            | String c1 r1 =>
                if is_char c1 93 then Ok (VList [], r1)
                else
                  let* (vs, rest) := elements n' (String c1 r1) in
                  Ok (VList vs, rest)
            | EmptyString => Raise JSONDecodeError
            end
          else scan_atom s
      end
  end
with elements (n : nat) (s : string) {struct n} : result (list value * string) :=
  match n with
  | O => Raise OutsideModel
  | S n' =>
      let* (v, r1) := scan_once n' s in
      match skip_ws r1 with
      | String c r2 =>
          if is_char c 93 then Ok ([v], r2)
          else if is_char c 44 then
            let* (vs, rest) := elements n' (skip_ws r2) in
            Ok (v :: vs, rest)
          else Raise JSONDecodeError
      | EmptyString => Raise JSONDecodeError
      end
  end
with members (n : nat) (s : string) {struct n}
  : result (list (string * value) * string) :=
  match n with
  | O => Raise OutsideModel
  | S n' =>
      match s with
      | String q r =>
          if is_char q 34 then
            let* (k, r1) := scan_string r in
            match skip_ws r1 with
            | String c r2 =>
                if is_char c 58 then
                  let* (v, r3) := scan_once n' (skip_ws r2) in
                  match skip_ws r3 with
                  | String c' r4 =>
                      if is_char c' 125 then Ok ([(k, v)], r4)
                      else if is_char c' 44 then
                        let* (kvs, rest) := members n' (skip_ws r4) in
                        Ok ((k, v) :: kvs, rest)
                      else Raise JSONDecodeError
                  | EmptyString => Raise JSONDecodeError
                  end
                else Raise JSONDecodeError
            | EmptyString => Raise JSONDecodeError
            end
          else Raise JSONDecodeError
      | EmptyString => Raise JSONDecodeError
      end
  end.

Definition bom : string := String (chr 0xEF) (String (chr 0xBB) (String (chr 0xBF) "")).

Definition loads (s : string) : result value :=
  match after_prefix bom s with
  | Some _ => Raise JSONDecodeError
  | None =>
      let* (v, rest) := scan_once (S (String.length s)) (skip_ws s) in
      match skip_ws rest with
      | EmptyString => Ok v
      | String _ _ => Raise JSONDecodeError
      end
  end.

End Json.

(** ** str.splitlines, str.strip and the UTF-8 decoder, on octets *)

Module Text.

Definition oct (c : ascii) : N := N_of_ascii c.

(** Line boundaries of one octet: LF, VT, FF, FS, GS, RS (CR is
    treated apart because of CR LF). *)
Definition boundary1 (c : ascii) : bool :=
  let n := oct c in
  ((n =? 0x0A) || (n =? 0x0B) || (n =? 0x0C)
   || (n =? 0x1C) || (n =? 0x1D) || (n =? 0x1E))%N.

Definition push (c : ascii) (ls : list string) : list string :=
  match ls with
  | [] => [String c EmptyString]
  | l :: r => String c l :: r
  end.

(** [s.splitlines()]: besides the ASCII boundaries, U+0085 (C2 85),
    U+2028 (E2 80 A8) and U+2029 (E2 80 A9) end a line.  Reading the
    file with universal newlines first, as [Path.read_text] does, turns
    CR LF and CR into LF and leaves the lines unchanged. *)
Fixpoint splitlines (s : string) : list string :=
  match s with
  | EmptyString => []
  | String c r =>
      if boundary1 c then EmptyString :: splitlines r
      else if (oct c =? 0x0D)%N then
        match r with
        | String c2 r2 =>
            if (oct c2 =? 0x0A)%N then EmptyString :: splitlines r2
            else EmptyString :: splitlines r
        | EmptyString => [EmptyString]
        end
      else
        match r with
        | String c2 r2 =>
            if (oct c =? 0xC2)%N && (oct c2 =? 0x85)%N
            then EmptyString :: splitlines r2
            else
              match r2 with
              | String c3 r3 =>
                  if (oct c =? 0xE2)%N && (oct c2 =? 0x80)%N
                     && ((oct c3 =? 0xA8)%N || (oct c3 =? 0xA9)%N)
                  then EmptyString :: splitlines r3
                  else push c (splitlines r)
              | EmptyString => push c (splitlines r)
              end
        | EmptyString => push c (splitlines r)
        end
  end.

(** [not line.strip()]: every character of the line is whitespace for
    [str.isspace]: U+0009..000D, U+001C..0020, U+0085, U+00A0, U+1680,
    U+2000..200A, U+2028, U+2029, U+202F, U+205F, U+3000. *)
Fixpoint is_blank (s : string) : bool :=
  match s with
  | EmptyString => true
  | String c r =>
      let n := oct c in
      if ((9 <=? n) && (n <=? 13) || (0x1C <=? n) && (n <=? 0x20))%N
      then is_blank r
      else
        match r with
        | String c2 r2 =>
            let n2 := oct c2 in
            if ((n =? 0xC2) && ((n2 =? 0x85) || (n2 =? 0xA0)))%N
            then is_blank r2
            else
              match r2 with
              | String c3 r3 =>
                  let n3 := oct c3 in
                  if ((n =? 0xE1) && (n2 =? 0x9A) && (n3 =? 0x80)
                      || (n =? 0xE2) && (n2 =? 0x80)
                         && ((0x80 <=? n3) && (n3 <=? 0x8A)
                             || (n3 =? 0xA8) || (n3 =? 0xA9) || (n3 =? 0xAF))
                      || (n =? 0xE2) && (n2 =? 0x81) && (n3 =? 0x9F)
                      || (n =? 0xE3) && (n2 =? 0x80) && (n3 =? 0x80))%N
                  then is_blank r3
                  else false
              | EmptyString => false
              end
        | EmptyString => false
        end
  end.

Definition cont (c : ascii) : bool := ((0x80 <=? oct c) && (oct c <=? 0xBF))%N.
Definition between (lo hi : N) (c : ascii) : bool :=
  ((lo <=? oct c) && (oct c <=? hi))%N.

(** Well-formed UTF-8 (no overlong forms, no surrogates, at most
    U+10FFFF): what [bytes.decode("utf-8")] accepts. *)
Fixpoint utf8_valid (s : string) : bool :=
  match s with
  | EmptyString => true
  | String c r =>
      if (oct c <? 0x80)%N then utf8_valid r
      else
        match r with
        | String c2 r2 =>
            if between 0xC2 0xDF c then cont c2 && utf8_valid r2
            else
              match r2 with
              | String c3 r3 =>
                  if between 0xE0 0xEF c then
                    (if (oct c =? 0xE0)%N then between 0xA0 0xBF c2
                     else if (oct c =? 0xED)%N then between 0x80 0x9F c2
                     else cont c2)
                    && cont c3 && utf8_valid r3
                  else
                    match r3 with
                    | String c4 r4 =>
                        if between 0xF0 0xF4 c then
                          (if (oct c =? 0xF0)%N then between 0x90 0xBF c2
                           else if (oct c =? 0xF4)%N then between 0x80 0x8F c2
                           else cont c2)
                          && cont c3 && cont c4 && utf8_valid r4
                        else false
                    | EmptyString => false
                    end
              | EmptyString => false
              end
        | EmptyString => false
        end
  end.

End Text.

(** ** app/hashing.py *)

Definition sha256_bytes (b : string) : string := SHA256.hexdigest b.

(** [chain_next(prev_hash, payload)]: the two [update] calls hash the
    concatenation of their arguments. *)
Definition chain_next (prev_hash : value) (payload : dict) : result string :=
  let* prev_hash :=
    match prev_hash with
    | VNone => Ok EmptyString
    | VStr s => Ok s
    | _ => Raise TypeError
    end in
  let* payload_bytes := Orjson.dumps (VDict payload) in
  Ok (SHA256.hexdigest (prev_hash ++ payload_bytes)).

(** ** app/schemas.py: AuditEvent *)

Record AuditEvent := {
  run_id : string;
  step : string;
  status : string;
  ts_iso : string;
  ts_ns : Z;
  input_digest : option string;
  output_digest : option string;
  artifact_paths : list string;
  details : dict;
  prev_event_hash : string;
  event_hash : string }.

Definition opt_str (o : option string) : value :=
  match o with Some s => VStr s | None => VNone end.

(** [event.model_dump()]: the fields in declaration order. *)
Definition model_dump (ev : AuditEvent) : dict :=
  [("run_id", VStr (run_id ev));
   ("step", VStr (step ev));
   ("status", VStr (status ev));
   ("ts_iso", VStr (ts_iso ev));
   ("ts_ns", VInt (ts_ns ev));
   ("input_digest", opt_str (input_digest ev));
   ("output_digest", opt_str (output_digest ev));
   ("artifact_paths", VList (map VStr (artifact_paths ev)));
   ("details", VDict (details ev));
   ("prev_event_hash", VStr (prev_event_hash ev));
   ("event_hash", VStr (event_hash ev))].

(** The one field whose annotation can reject a value of the argument's
    type: [status: Literal["ok", "error"]]. *)
Definition validate (ev : AuditEvent) : result AuditEvent :=
  if String.eqb (status ev) "ok" || String.eqb (status ev) "error"
  then Ok ev else Raise ValidationError.

(** ** app/storage.py: the audit table *)

Record Audit := {
  id : Z;
  a_run_id : string;
  a_step : string;
  a_status : string;
  a_ts_iso : string;
  a_ts_ns : Z;
  a_input_digest : option string;
  a_output_digest : option string;
  a_prev_event_hash : string;
  a_event_hash : string;
  details_json : string }.

(** An INTEGER PRIMARY KEY: one more than the largest id in the
    table. *)
Definition next_id (t : list Audit) : Z :=
  1 + fold_right (fun r m => Z.max (id r) m) 0 t.

(** What one call meets outside the program: the two clocks and
    whether the store or the file system fails. *)
Record env := {
  now_iso : string;
  now_ns : Z;
  select_fails : bool;
  write_fails : bool;
  commit_fails : bool }.

Definition sqlite_int (n : Z) : bool := (- 2 ^ 63 <=? n) && (n <? 2 ^ 63).

(** [append_audit(event)] *)
Definition append_audit (e : env) (event : AuditEvent) (t : list Audit)
  : result (list Audit) :=
  let* dj := Orjson.dumps (VDict (details event)) in
  if commit_fails e then Raise OperationalError
  else if negb (sqlite_int (ts_ns event)) then Raise OverflowError
  else
    Ok (t ++ [{| id := next_id t;
                 a_run_id := run_id event;
                 a_step := step event;
                 a_status := status event;
                 a_ts_iso := ts_iso event;
                 a_ts_ns := ts_ns event;
                 a_input_digest := input_digest event;
                 a_output_digest := output_digest event;
                 a_prev_event_hash := prev_event_hash event;
                 a_event_hash := event_hash event;
                 details_json := dj |}])%list.

(** [ORDER BY id DESC LIMIT 1] over the rows selected. *)
Definition last_by_id (rows : list Audit) : option Audit :=
  fold_left
    (fun best r =>
       match best with
       | None => Some r
       | Some b => if id b <? id r then Some r else Some b
       end)
    rows None.

(** [get_last_audit_hash(run_id)] *)
Definition get_last_audit_hash (e : env) (rid : string) (t : list Audit)
  : result (option string) :=
  if select_fails e then Raise OperationalError
  else
    let rows := List.filter (fun r => String.eqb (a_run_id r) rid) t in
    Ok (match last_by_id rows with
        | Some row => Some (a_event_hash row)
        | None => None
        end).

(** ** app/settings.py: artifacts_dir_for

    A path is the tuple [PurePosixPath.parts]: an absolute path starts
    with the part ["/"]; empty parts and single dots are dropped. *)

Module Pathlib.

Fixpoint split_slash (s : string) : list string :=
  match s with
  | EmptyString => [EmptyString]
  | String c r =>
      if (N_of_ascii c =? 47)%N then EmptyString :: split_slash r
      else match split_slash r with
           | [] => [String c EmptyString]
           | p :: ps => String c p :: ps
           end
  end.

Definition kept (p : string) : bool :=
  negb (String.eqb p EmptyString) && negb (String.eqb p ".").

(** [Path(s).parts] *)
Definition parts (s : string) : list string :=
  (match s with
   | String c _ => if (N_of_ascii c =? 47)%N then ["/"] else []
   | EmptyString => []
   end ++ List.filter kept (split_slash s))%list.

Definition is_absolute (p : list string) : bool :=
  match p with
  | root :: _ => String.eqb root "/"
  | [] => false
  end.

(** [p / s] *)
Definition joinpath (p : list string) (s : string) : list string :=
  if is_absolute (parts s) then parts s else p ++ parts s.

End Pathlib.

Record Settings := {
  project_root : list string;
  artifacts_base_dir : string }.

(** [settings.artifacts_dir_for(run_id)]; the two [mkdir] calls create
    directories only and fail with the file system. *)
Definition artifacts_dir_for (cfg : Settings) (rid : string) : list string :=
  let base := Pathlib.parts (artifacts_base_dir cfg) in
  let base :=
    if Pathlib.is_absolute base then base
    else Pathlib.joinpath (project_root cfg) (artifacts_base_dir cfg) in
  Pathlib.joinpath base rid.

(** ** app/audit.py: AuditTrailAgent *)

(** The durable state: the audit table and the files, by path. *)
Record world := {
  audit_table : list Audit;
  files : gmap (list string) string }.

(** [open(path, "ab")] then [write]: the file is created when absent. *)
Definition append_file (p : list string) (data : string) (w : world) : world :=
  {| audit_table := audit_table w;
     files := <[p := default EmptyString (files w !! p) ++ data]> (files w) |}.

Definition newline : string := String (ascii_of_N 10) EmptyString.

(** [self._resolve_prev_hash(run_id)] *)
Definition _resolve_prev_hash (e : env) (_last_hash_by_run : gmap string string)
    (w : world) (rid : string) : result string :=
  match _last_hash_by_run !! rid with
  | Some h => Ok h
  | None =>
      let* last := get_last_audit_hash e rid (audit_table w) in
      Ok (match last with
          | Some h => if String.eqb h EmptyString then EmptyString else h
          | None => EmptyString
          end)
  end.

(** The arguments of one [log_event] call. *)
Record call := {
  c_run_id : string;
  c_step : string;
  c_status : string;
  c_details : dict;
  c_input_digest : option string;
  c_output_digest : option string;
  c_artifact_paths : option (list string) }.

(** The dict built before the hash is known. *)
Definition event_dict (e : env) (c : call) (prev_hash : string) : dict :=
  [("run_id", VStr (c_run_id c));
   ("step", VStr (c_step c));
   ("status", VStr (c_status c));
   ("ts_iso", VStr (now_iso e));
   ("ts_ns", VInt (now_ns e));
   ("input_digest", opt_str (c_input_digest c));
   ("output_digest", opt_str (c_output_digest c));
   ("artifact_paths", VList (map VStr (default [] (c_artifact_paths c))));
   ("details", VDict (c_details c));
   ("prev_event_hash", VStr prev_hash)].

Definition make_event (e : env) (c : call) (prev_hash hash : string) : AuditEvent :=
  {| run_id := c_run_id c;
     step := c_step c;
     status := c_status c;
     ts_iso := now_iso e;
     ts_ns := now_ns e;
     input_digest := c_input_digest c;
     output_digest := c_output_digest c;
     artifact_paths := default [] (c_artifact_paths c);
     details := c_details c;
     prev_event_hash := prev_hash;
     event_hash := hash |}.

(** The state a call leaves: the agent's cache and the world. *)
Record state := {
  _last_hash_by_run : gmap string string;
  durable : world }.

(** [self.log_event(...)]: the outcome and the state left behind, also
    when the call raises. *)
Definition log_event (cfg : Settings) (e : env) (c : call) (st : state)
  : result AuditEvent * state :=
  let self := _last_hash_by_run st in
  let w := durable st in
  match _resolve_prev_hash e self w (c_run_id c) with
  | Raise x => (Raise x, st)
  | Ok prev_hash =>
  match chain_next (VStr prev_hash) (event_dict e c prev_hash) with
  | Raise x => (Raise x, st)
  | Ok hash =>
  match validate (make_event e c prev_hash hash) with
  | Raise x => (Raise x, st)
  | Ok event_full =>
  if write_fails e then (Raise OSError, st) else
  let audit_path := Pathlib.joinpath (artifacts_dir_for cfg (c_run_id c)) "audit.jsonl" in
  match Orjson.dumps (VDict (model_dump event_full)) with
  | Raise x => (Raise x, st)
  | Ok line =>
  let w1 := append_file audit_path (line ++ newline) w in
  match append_audit e event_full (audit_table w1) with
  | Raise x => (Raise x, {| _last_hash_by_run := self; durable := w1 |})
  | Ok t =>
      (Ok event_full,
       {| _last_hash_by_run := <[c_run_id c := hash]> self;
          durable := {| audit_table := t; files := files w1 |} |})
  end end end end end.

(** [AuditTrailAgent()] *)
Definition new_agent (w : world) : state :=
  {| _last_hash_by_run := ∅; durable := w |}.

(** ** app/cli_verify_audit.py *)

(** [audit_path.read_text(encoding="utf-8")] *)
Definition read_text (w : world) (p : list string) : result string :=
  match files w !! p with
  | None => Raise OSError
  | Some octets =>
      if Text.utf8_valid octets then Ok octets else Raise UnicodeDecodeError
  end.

(** [v == s] for a str [s]: only a str equals a str. *)
Definition eq_str (v : value) (s : string) : bool :=
  match v with
  | VStr t => String.eqb t s
  | _ => false
  end.

(** [ev.get(k, "")] *)
Definition get_or_empty (k : string) (d : dict) : value :=
  default (VStr EmptyString) (dict_get k d).

(** What the loop has when it ends. *)
Record replayed := {
  events : list dict;
  break_index : option nat }.

(** The [for idx, line in enumerate(...)] loop from line [idx] on.
    [prev] is a str throughout: it starts as the empty str and is only
    ever replaced by an [event_hash] that compared equal to the str
    [recomputed]. *)
Fixpoint replay (lines : list string) (idx : nat) (prev : string)
    (seen : list dict) : result replayed :=
  match lines with
  | [] => Ok {| events := seen; break_index := None |}
  | line :: rest =>
      if Text.is_blank line then replay rest (S idx) prev seen
      else
        let* ev := Json.loads line in
        match ev with
        | VDict ev =>
            if negb (eq_str (get_or_empty "prev_event_hash" ev) prev)
            then Ok {| events := seen; break_index := Some idx |}
            else
              let payload := dict_without "event_hash" ev in
              let* recomputed :=
                chain_next (get_or_empty "prev_event_hash" ev) payload in
              if negb (match dict_get "event_hash" ev with
                       | Some h => eq_str h recomputed
                       | None => false
                       end)
              then Ok {| events := seen; break_index := Some idx |}
              else replay rest (S idx) recomputed (seen ++ [ev])%list
        | _ => Raise AttributeError
        end
  end.

Record report := {
  r_run_id : value;
  r_events : nat;
  r_valid : bool;
  r_break_index : option nat }.

(** The dict returned, from the loop's outcome. *)
Definition summary (r : replayed) : result report :=
  let* rid :=
    match events r with
    | [] => Ok VNone
    | first :: _ =>
        match dict_get "run_id" first with
        | Some v => Ok v
        | None => Raise KeyError
        end
    end in
  Ok {| r_run_id := rid;
        r_events := length (events r);
        r_valid := match break_index r with None => true | Some _ => false end;
        r_break_index := break_index r |}.

Definition verify_text (text : string) : result report :=
  let* r := replay (Text.splitlines text) 0 EmptyString [] in
  summary r.

(** [verify_chain(audit_path)] *)
Definition verify_chain (w : world) (audit_path : list string) : result report :=
  let* text := read_text w audit_path in
  verify_text text.

(** ** Notions the properties are stated with *)

(** Calls made one after another on one agent, each meeting its own
    clocks and faults. *)
Fixpoint run (cfg : Settings) (cs : list (env * call)) (st : state)
  : list (result AuditEvent) * state :=
  match cs with
  | [] => ([], st)
  | (e, c) :: rest =>
      let '(o, st1) := log_event cfg e c st in
      let '(os, st2) := run cfg rest st1 in
      (o :: os, st2)
  end.

(** The events the calls returned for one run, in order. *)
Fixpoint returned_for (rid : string) (outs : list (result AuditEvent))
  : list AuditEvent :=
  match outs with
  | [] => []
  | Ok ev :: rest =>
      if String.eqb (run_id ev) rid then ev :: returned_for rid rest
      else returned_for rid rest
  | Raise _ :: rest => returned_for rid rest
  end.

(** A chain hanging from [prev]. *)
Fixpoint linked (prev : string) (evs : list AuditEvent) : Prop :=
  match evs with
  | [] => True
  | ev :: rest => prev_event_hash ev = prev /\ linked (event_hash ev) rest
  end.

(** The hash the next event of a run will be chained to. *)
Definition pending (st : state) (rid : string) : string :=
  match _last_hash_by_run st !! rid with
  | Some h => h
  | None =>
      match last_by_id (List.filter (fun r => String.eqb (a_run_id r) rid)
                               (audit_table (durable st))) with
      | Some row => a_event_hash row
      | None => EmptyString
      end
  end.

(** Row ids grow in the order of appending. *)
Fixpoint ids_increasing (t : list Audit) : Prop :=
  match t with
  | [] => True
  | r :: rest => Forall (fun r' => id r < id r') rest /\ ids_increasing rest
  end.

(** The rows of one run, oldest first. *)
Definition rows_of (rid : string) (t : list Audit) : list Audit :=
  List.filter (fun r => String.eqb (a_run_id r) rid) t.

(** Lowercase hexadecimal text. *)
Definition lower_hex (s : string) : Prop :=
  Forall (fun c => In c (list_ascii_of_string "0123456789abcdef"))
         (list_ascii_of_string s).

(** Values orjson.dumps accepts: no foreign object, every int within
    64 bits. *)
Fixpoint encodable (v : value) : bool :=
  match v with
  | VInt n => Orjson.int_fits n
  | VList l => forallb encodable l
  | VDict d => forallb (fun kv => encodable (snd kv)) d
  | VObject => false
  | _ => true
  end.



(** The value read back from the text of a value: dict items in key
    order, a non-finite float as None. *)
Fixpoint canonical (v : value) : value :=
  match v with
  | VFloat _ => VNone
  | VList l => VList (map canonical l)
  | VDict d =>
      VDict (Orjson.sort_items (map (fun kv => (fst kv, canonical (snd kv))) d))
  | _ => v
  end.

(** ** Concrete runs used as instances *)

Definition demo_cfg : Settings :=
  {| project_root := ["/"; "srv"; "easyapplyai"]; artifacts_base_dir := "artifacts" |}.

Definition demo_env (ns : Z) : env :=
  {| now_iso := "2025-01-01T00:00:00Z"; now_ns := ns;
     select_fails := false; write_fails := false; commit_fails := false |}.

Definition empty_world : world := {| audit_table := []; files := ∅ |}.

Definition demo_call (rid stp sts : string) (d : dict) : call :=
  {| c_run_id := rid; c_step := stp; c_status := sts; c_details := d;
     c_input_digest := None; c_output_digest := None;
     c_artifact_paths := None |}.

(** The end-to-end scenario: three events for run r1. *)
Definition demo_calls : list (env * call) :=
  [(demo_env 1, demo_call "r1" "s1" "ok" []);
   (demo_env 2, demo_call "r1" "s2" "ok" [("x", VInt 1)]);
   (demo_env 3, demo_call "r1" "s3" "error" [("msg", VStr "boom")])].

Definition demo_path : list string :=
  ["/"; "srv"; "easyapplyai"; "artifacts"; "r1"; "audit.jsonl"].

(** The outcome of a call when it returns an event. *)
Definition event_of (r : result AuditEvent) : AuditEvent :=
  match r with
  | Ok ev => ev
  | Raise _ =>
      {| run_id := EmptyString; step := EmptyString; status := EmptyString;
         ts_iso := EmptyString; ts_ns := 0; input_digest := None;
         output_digest := None; artifact_paths := []; details := [];
         prev_event_hash := EmptyString; event_hash := EmptyString |}
  end.

(** The first event of the scenario, and the state after all three. *)
Definition demo_first : AuditEvent :=
  Eval vm_compute in
    event_of (fst (log_event demo_cfg (demo_env 1) (demo_call "r1" "s1" "ok" [])
                             (new_agent empty_world))).

Definition demo_state : state :=
  snd (run demo_cfg demo_calls (new_agent empty_world)).

(** A fourth event, logged by a new agent over the world the three
    calls left. *)
Definition demo_fourth : AuditEvent :=
  Eval vm_compute in
    event_of (fst (log_event demo_cfg (demo_env 0) (demo_call "r1" "s4" "ok" [])
                             (new_agent (durable demo_state)))).

Definition demo_last_row : option Audit :=
  Eval vm_compute in last (rows_of "r1" (audit_table (durable demo_state))).

Definition failing_select : env :=
  {| now_iso := "2025-01-01T00:00:00Z"; now_ns := 7;
     select_fails := true; write_fails := false; commit_fails := false |}.

Definition failing_commit : env :=
  {| now_iso := "2025-01-01T00:00:01Z"; now_ns := 8;
     select_fails := false; write_fails := false; commit_fails := true |}.

(** ** What the verifier meets in a file *)







(** The file the three calls wrote, and its lines. *)
Definition demo_file : string :=
  Eval vm_compute in default EmptyString (files (durable demo_state) !! demo_path).









(** The file of a run's events. *)
Definition audit_path_of (cfg : Settings) (rid : string) : list string :=
  Pathlib.joinpath (artifacts_dir_for cfg rid) "audit.jsonl".


(** No other run of the session writes to the file of [rid]. *)
Definition own_file (cfg : Settings) (rid : string) (cs : list (env * call)) : Prop :=
  Forall (fun ec => c_run_id (snd ec) = rid
                    \/ audit_path_of cfg (c_run_id (snd ec)) <> audit_path_of cfg rid)
         cs.

(** Two runs logged in turn by one agent. *)
Definition interleaved_calls : list (env * call) :=
  [(demo_env 1, demo_call "r1" "s1" "ok" []);
   (demo_env 2, demo_call "r2" "t1" "ok" [("x", VInt 1)]);
   (demo_env 3, demo_call "r1" "s2" "ok" []);
   (demo_env 4, demo_call "r2" "t2" "error" [])].


(** A details value holding U+2028 LINE SEPARATOR. *)
Definition separator_call : call :=
  demo_call "r1" "s1" "ok" [("msg", VStr ("a" ++ Json.utf8 0x2028 ++ "b"))].

(** ** Strings that stay on one line *)



Definition hi (c : ascii) : bool := (0x80 <=? Text.oct c)%N.






(** ** Notions used in the proofs *)

Definition pick (best : option Audit) (r : Audit) : option Audit :=
  match best with
  | None => Some r
  | Some b => if id b <? id r then Some r else Some b
  end.

Definition dumps_each (l : list value) : result (list string) :=
  (fix each (l : list value) : result (list string) :=
     match l with
     | [] => Ok []
     | x :: r =>
         let* sx := Orjson.dumps x in
         let* sr := each r in
         Ok (sx :: sr)
     end) l.

Definition dumps_items (d : list (string * value)) : result (list (string * string)) :=
  (fix each (d : list (string * value)) : result (list (string * string)) :=
     match d with
     | [] => Ok []
     | (k, x) :: r =>
         let* sx := Orjson.dumps x in
         let* sr := each r in
         Ok ((k, sx) :: sr)
     end) d.



(** What may follow a value inside a document: the end, a comma or a
    closing bracket. *)
Definition terminator (rest : string) : bool :=
  match rest with
  | EmptyString => true
  | String c _ => Json.is_char c 44 || Json.is_char c 93 || Json.is_char c 125
  end.









(** Printable ASCII throughout. *)
Fixpoint plain (s : string) : bool :=
  match s with
  | EmptyString => true
  | String c r => ((0x20 <=? Text.oct c) && (Text.oct c <? 0x80))%N && plain r
  end.






(** * More of the code: files, the other tables, the command line *)

(** ** app/hashing.py: sha256_file *)

(** [f.read(n)] on a file opened with "rb": the next [n] octets, or
    the octets that are left, and the rest of the file. *)
Fixpoint read_octets (n : nat) (s : string) : string * string :=
  match n, s with
  | S k, String c r => let (a, b) := read_octets k r in (String c a, b)
  | _, _ => (EmptyString, s)
  end.

(** The loop [for chunk in iter(lambda: f.read(size), b""): h.update(chunk)].
    [h] is the text the hash object was fed so far ([update] appends,
    as in [chain_next]).  Every round but the last reads an octet at
    least, so one round per octet and one more always suffice; [None]
    is the loop still running when the rounds are used up. *)
Fixpoint read_chunks (rounds size : nat) (rest h : string) : option string :=
  match rounds with
  | O => None
  | S k =>
      let (chunk, rest') := read_octets size rest in
      if String.eqb chunk EmptyString then Some h
      else read_chunks k size rest' (h ++ chunk)
  end.

Definition chunk_size : nat := N.to_nat 8192.

(** [sha256_file(path)]: [open] raises when there is no such file. *)
Definition sha256_file (w : world) (path : list string) : result string :=
  match files w !! path with
  | None => Raise OSError
  | Some content =>
      match read_chunks (S (String.length content)) chunk_size content EmptyString with
      | Some fed => Ok (SHA256.hexdigest fed)
      | None => Raise OutsideModel
      end
  end.

(** ** app/storage.py: runs, artifacts and jobs *)

Record Run := {
  runs_run_id : string;
  runs_url : string;
  runs_started_at : string;
  runs_finished_at : option string;
  runs_status : string;
  runs_error_message : option string }.

Record Artifact := {
  art_id : Z;
  art_run_id : string;
  art_kind : string;
  art_path : string;
  art_sha256 : string;
  art_created_at : string }.

Record Job := {
  job_id : Z;
  job_run_id : string;
  job_url : string;
  job_content_hash : option string;
  job_extracted_at : option string }.

(** The three tables.  [runs] has the run id as its primary key; the
    other two are in the order of their rows' insertion. *)
Record store := {
  runs : gmap string Run;
  artifacts : list Artifact;
  jobs : list Job }.

(** What a call of the store meets outside the program: the clock of
    [_utc_now_iso], the id drawn by [uuid.uuid4] and whether the
    database fails during the call (the transaction is then not
    committed). *)
Record senv := {
  utc_now_iso : string;
  uuid4 : string;
  db_fails : bool }.

(** An INTEGER PRIMARY KEY: one more than the largest id in use. *)
Definition fresh_id (ids : list Z) : Z := 1 + fold_right Z.max 0 ids.

(** [create_run(url)].  A drawn id that is in the table already (the
    insert would fail on the primary key) is left outside the model. *)
Definition create_run (e : senv) (url : string) (s : store) : result (string * store) :=
  let run_id := uuid4 e in
  if db_fails e then Raise OperationalError
  else
    match runs s !! run_id with
    | Some _ => Raise OutsideModel
    | None =>
        Ok (run_id,
            {| runs := <[run_id := {| runs_run_id := run_id;
                                      runs_url := url;
                                      runs_started_at := utc_now_iso e;
                                      runs_finished_at := None;
                                      runs_status := "running";
                                      runs_error_message := None |}]> (runs s);
               artifacts := artifacts s;
               jobs := jobs s |})
    end.

(** [finish_run(run_id, status, error_message)]: an UPDATE of the rows
    with this run id. *)
Definition finish_run (e : senv) (run_id status : string)
    (error_message : option string) (s : store) : result store :=
  if db_fails e then Raise OperationalError
  else
    Ok {| runs := alter (fun r => {| runs_run_id := runs_run_id r;
                                     runs_url := runs_url r;
                                     runs_started_at := runs_started_at r;
                                     runs_finished_at := Some (utc_now_iso e);
                                     runs_status := status;
                                     runs_error_message := error_message |})
                        run_id (runs s);
          artifacts := artifacts s;
          jobs := jobs s |}.

(** [get_run(run_id)] *)
Definition get_run (e : senv) (run_id : string) (s : store) : result (option dict) :=
  if db_fails e then Raise OperationalError
  else
    Ok (match runs s !! run_id with
        | None => None
        | Some row =>
            Some [("run_id", VStr (runs_run_id row));
                  ("url", VStr (runs_url row));
                  ("started_at", VStr (runs_started_at row));
                  ("finished_at", opt_str (runs_finished_at row));
                  ("status", VStr (runs_status row));
                  ("error_message", opt_str (runs_error_message row))]
        end).

(** [str(path)] *)
Definition path_str (p : list string) : string :=
  match p with
  | [] => "."
  | root :: rest =>
      if String.eqb root "/" then "/" ++ String.concat "/" rest
      else String.concat "/" p
  end.

(** The dict that [persist_artifact] returns and that
    [get_artifacts_for_run] builds of a row. *)
Definition artifact_dict (a : Artifact) : dict :=
  [("id", VInt (art_id a));
   ("run_id", VStr (art_run_id a));
   ("kind", VStr (art_kind a));
   ("path", VStr (art_path a));
   ("sha256", VStr (art_sha256 a));
   ("created_at", VStr (art_created_at a))].

(** [persist_artifact(run_id, kind, path)]: the file is hashed before
    the session is opened. *)
Definition persist_artifact (e : senv) (w : world) (run_id kind : string)
    (path : list string) (s : store) : result (dict * store) :=
  let* sha := sha256_file w path in
  let created_at := utc_now_iso e in
  if db_fails e then Raise OperationalError
  else
    let art := {| art_id := fresh_id (map art_id (artifacts s));
                  art_run_id := run_id;
                  art_kind := kind;
                  art_path := path_str path;
                  art_sha256 := sha;
                  art_created_at := created_at |} in
    Ok (artifact_dict art,
        {| runs := runs s; artifacts := artifacts s ++ [art]; jobs := jobs s |}).

(** [get_artifact_count(run_id)] *)
Definition get_artifact_count (e : senv) (run_id : string) (s : store) : result Z :=
  if db_fails e then Raise OperationalError
  else
    Ok (Z.of_nat (length (List.filter (fun a => String.eqb (art_run_id a) run_id)
                                      (artifacts s)))).

(** [ORDER BY id ASC]: a sort of the rows selected (the ids are a
    primary key, so no two rows tie). *)
Fixpoint insert_by_id (a : Artifact) (l : list Artifact) : list Artifact :=
  match l with
  | [] => [a]
  | b :: r => if art_id a <=? art_id b then a :: l else b :: insert_by_id a r
  end.

Definition order_by_id (l : list Artifact) : list Artifact :=
  fold_right insert_by_id [] l.

(** [get_artifacts_for_run(run_id)] *)
Definition get_artifacts_for_run (e : senv) (run_id : string) (s : store)
  : result (list dict) :=
  if db_fails e then Raise OperationalError
  else
    Ok (map artifact_dict
            (order_by_id (List.filter (fun a => String.eqb (art_run_id a) run_id)
                                      (artifacts s)))).

(** [Job.url == url, Job.content_hash == content_hash] with two strs. *)
Definition job_matches (url content_hash : string) (j : Job) : bool :=
  String.eqb (job_url j) url
  && match job_content_hash j with
     | Some h => String.eqb h content_hash
     | None => false
     end.

(** [upsert_job(run_id, url, content_hash)]; the row an unordered
    SELECT of SQLite gives first is the one with the least rowid. *)
Definition upsert_job (e : senv) (run_id url content_hash : string) (s : store)
  : result (Z * store) :=
  let now := utc_now_iso e in
  if db_fails e then Raise OperationalError
  else
    match List.find (job_matches url content_hash) (jobs s) with
    | Some existing => Ok (job_id existing, s)
    | None =>
        let job := {| job_id := fresh_id (map job_id (jobs s));
                      job_run_id := run_id;
                      job_url := url;
                      job_content_hash := Some content_hash;
                      job_extracted_at := Some now |} in
        Ok (job_id job,
            {| runs := runs s; artifacts := artifacts s; jobs := jobs s ++ [job] |})
    end.

(** Row ids grow in the order of the rows. *)
Fixpoint ascending_ids (ids : list Z) : Prop :=
  match ids with
  | [] => True
  | i :: rest => Forall (fun j => i < j) rest /\ ascending_ids rest
  end.

(** No two job rows hold the same url and content hash, and the ids
    of the rows grow. *)
Definition jobs_wf (s : store) : Prop :=
  List.NoDup (map (fun j => (job_url j, job_content_hash j)) (jobs s))
  /\ ascending_ids (map job_id (jobs s)).

Definition empty_store : store := {| runs := ∅; artifacts := []; jobs := [] |}.

Definition demo_senv (now id : string) : senv :=
  {| utc_now_iso := now; uuid4 := id; db_fails := false |}.

(** ** app/cli_verify_audit.py: main *)









(** ** Run ids that are one path component *)

Fixpoint has_slash (s : string) : bool :=
  match s with
  | EmptyString => false
  | String c r => (N_of_ascii c =? 47)%N || has_slash r
  end.

(** A run id that pathlib reads as one component: not empty, not a
    single dot, without a slash (the ids of [create_run] are such). *)
Definition plain_id (rid : string) : bool :=
  negb (String.eqb rid EmptyString) && negb (String.eqb rid ".")
  && negb (has_slash rid).

(** ** app/normalize.py

    These functions look at the characters of a str: here a str is the
    list of its code points, and [encode] gives its octets. *)

Definition ustr := list N.

(** [str.isspace] of one character, which is also what [\s] matches in
    a str pattern: U+0009..000D, U+001C..0020, U+0085, U+00A0, U+1680,
    U+2000..200A, U+2028, U+2029, U+202F, U+205F, U+3000. *)
Definition isspace (c : N) : bool :=
  ((9 <=? c) && (c <=? 13) || (0x1C <=? c) && (c <=? 0x20)
   || (c =? 0x85) || (c =? 0xA0) || (c =? 0x1680)
   || (0x2000 <=? c) && (c <=? 0x200A)
   || (c =? 0x2028) || (c =? 0x2029) || (c =? 0x202F) || (c =? 0x205F)
   || (c =? 0x3000))%N.

(** [s.strip()]: the white space at both ends is dropped. *)
Fixpoint lstrip (s : ustr) : ustr :=
  match s with
  | [] => []
  | c :: r => if isspace c then lstrip r else s
  end.

Fixpoint rstrip (s : ustr) : ustr :=
  match s with
  | [] => []
  | c :: r =>
      match rstrip r with
      | [] => if isspace c then [] else [c]
      | kept => c :: kept
      end
  end.

Definition strip (s : ustr) : ustr := rstrip (lstrip s).

(** [_ws_re.sub(" ", s)] for the pattern [\s+]: every maximal run of
    white space is one match (the quantifier is greedy and matches do
    not overlap); the space that replaces a run is written where the
    run ends. *)
Fixpoint sub_spaces (s : ustr) : ustr :=
  match s with
  | [] => []
  | c :: r =>
      if isspace c then
        match r with
        | c2 :: _ => if isspace c2 then sub_spaces r else 32%N :: sub_spaces r
        | [] => [32%N]
        end
      else c :: sub_spaces r
  end.

(** [s or ""] *)
Definition or_empty (s : option ustr) : ustr := default [] s.

(** [normalize_ws(s)] *)
Definition normalize_ws (s : option ustr) : ustr :=
  sub_spaces (strip (or_empty s)).

(** [tidy_title(s)] *)
Definition tidy_title (s : option ustr) : ustr := normalize_ws s.

(** [re.sub(r"\s*,\s*", ", ", s)].  A match is a comma with the white
    space around it; it starts where the white space before the comma
    starts.  [held] is the white space read since the last character
    written, which belongs to a match if a comma follows and is
    written otherwise; [after] says that a match has just ended, so
    that white space belongs to it. *)
Fixpoint sub_commas (after : bool) (held : ustr) (s : ustr) : ustr :=
  match s with
  | [] => held
  | c :: r =>
      if (c =? 44)%N then 44%N :: 32%N :: sub_commas true [] r
      else if isspace c then
        if after then sub_commas true [] r
        else sub_commas false (held ++ [c])%list r
      else (held ++ c :: sub_commas false [] r)%list
  end.

(** [tidy_location(s)] *)
Definition tidy_location (s : option ustr) : ustr :=
  sub_commas false [] (normalize_ws s).

(** [sep.join(parts)] *)
Fixpoint join (sep : ustr) (parts : list ustr) : ustr :=
  match parts with
  | [] => []
  | [p] => p
  | p :: rest => (p ++ sep ++ join sep rest)%list
  end.

(** [s.encode("utf-8")].  A surrogate has no UTF-8 form (Python raises
    UnicodeEncodeError), and a number above U+10FFFF is no character:
    both are outside the model. *)
Definition encodes (c : N) : bool :=
  ((c <? 0x110000) && negb ((0xD800 <=? c) && (c <=? 0xDFFF)))%N.

Definition encode (s : ustr) : result string :=
  if forallb encodes s then Ok (String.concat "" (map Json.utf8 s))
  else Raise OutsideModel.

(** The local [joined] of [compute_content_hash]. *)
Definition joined (title company location description_text : option ustr) : ustr :=
  join [10%N] [normalize_ws title; normalize_ws company; normalize_ws location;
               normalize_ws description_text].

(** [compute_content_hash(title, company, location, description_text)] *)
Definition compute_content_hash (title company location description_text : option ustr)
  : result string :=
  let* octets := encode (joined title company location description_text) in
  Ok (sha256_bytes octets).

(** A str of Python from a string literal of ASCII characters. *)
Definition ascii_str (s : string) : ustr := map N_of_ascii (list_ascii_of_string s).

(** ** Notions used in the proofs *)


(** The form [normalize_ws] gives: every white space character is a
    U+0020 between two characters that are not white space. *)
Fixpoint spaced (s : ustr) : bool :=
  match s with
  | [] => true
  | c :: r =>
      (if isspace c
       then (c =? 32)%N && match r with
                           | c2 :: _ => negb (isspace c2)
                           | [] => false
                           end
       else true)
      && spaced r
  end.

Definition normalized (s : ustr) : bool :=
  spaced s && match s with c :: _ => negb (isspace c) | [] => true end.

(** The form [tidy_location] gives: a comma is followed by a U+0020,
    and any other white space is a U+0020 that stands neither after
    that one nor before a comma nor at the end.  [after] says that the
    U+0020 of a comma has just been read. *)
Fixpoint comma_form (after : bool) (s : ustr) : bool :=
  match s with
  | [] => true
  | c :: r =>
      if (c =? 44)%N then
        match r with
        | c2 :: r' => (c2 =? 32)%N && comma_form true r'
        | [] => false
        end
      else if isspace c then
        (c =? 32)%N && negb after
        && match r with
           | c2 :: _ => negb (isspace c2) && negb (c2 =? 44)%N
           | [] => false
           end
        && comma_form false r
      else comma_form false r
  end.

(** The cache of an agent holds, for a run, the hash that the table
    would give for it. *)
Definition coherent (st : state) : Prop :=
  forall rid h, _last_hash_by_run st !! rid = Some h ->
                pending (new_agent (durable st)) rid = h.

(** * Checks of the library models on known values *)

Example sha256_empty :
  SHA256.hexdigest "" =
  "e3b0c44298fc1c149afbf4c8996fb92427ae41e4649b934ca495991b7852b855".
Proof. vm_compute. reflexivity. Qed.

Example sha256_abc :
  SHA256.hexdigest "abc" =
  "ba7816bf8f01cfea414140de5dae2223b00361a396177a9cb410ff61f20015ad".
Proof. vm_compute. reflexivity. Qed.

Example sha256_two_blocks :
  SHA256.hexdigest "abcdbcdecdefdefgefghfghighijhijkijkljklmklmnlmnomnopnopq" =
  "248d6a61d20638b8e5c026930c3e6039a33ce45964ff2167f6ecedd419db06c1".
Proof. vm_compute. reflexivity. Qed.

Example dumps_sorts :
  Orjson.dumps (VDict [("b", VInt 1); ("a", VList [VNone; VBool true; VStr (js "x'y")]);
                       ("c", VDict [("z", VInt (-5)); ("y", VFloat NaN)])])
  = Ok (js "{'a':[null,true,'x\'y'],'b':1,'c':{'y':null,'z':-5}}").
Proof. vm_compute. reflexivity. Qed.

Example loads_object :
  Json.loads (js "{'b': 1, 'a' :[null , true,'x\'y\u00e9\ud83d\ude00'], 'b':-20}")
  = Ok (VDict [("b", VInt (-20));
               ("a", VList [VNone; VBool true;
                            VStr (js "x'y" ++ Json.utf8 233 ++ Json.utf8 0x1F600)])]).
Proof. vm_compute. reflexivity. Qed.

Example loads_rejects :
  map Json.loads
    [js "{'a':1,}"; "[1 2]"; "01"; js "{'a':1} x"; js "'a"; "1.5"; "NaN"]
  = [Raise JSONDecodeError; Raise JSONDecodeError; Raise JSONDecodeError;
     Raise JSONDecodeError; Raise JSONDecodeError; Raise OutsideModel;
     Ok (VFloat NaN)].
Proof. vm_compute. reflexivity. Qed.

Example splitlines_examples :
  map Text.splitlines
    ["a" ++ String (ascii_of_N 10) "b" ++ String (ascii_of_N 10) "";
     String (ascii_of_N 10) "x";
     "a" ++ String (ascii_of_N 13) (String (ascii_of_N 10) "b");
     "a" ++ Json.utf8 0x2028 ++ "b";
     "a" ++ Json.utf8 0x2027 ++ "b"]
  = [["a"; "b"]; [""; "x"]; ["a"; "b"]; ["a"; "b"];
     ["a" ++ Json.utf8 0x2027 ++ "b"]].
Proof. vm_compute. reflexivity. Qed.

Example sha256_constants :
  nth 0 SHA256.round_constants 0 = 0x428a2f98
  /\ nth 63 SHA256.round_constants 0 = 0xc67178f2
  /\ SHA256.ra SHA256.initial_regs = 0x6a09e667
  /\ SHA256.rh SHA256.initial_regs = 0x5be0cd19.
Proof. vm_compute. repeat split. Qed.

(** * The hash-chain engine *)

Lemma hex_digit_lower n :
  In (SHA256.hex_digit n) (list_ascii_of_string "0123456789abcdef").
Proof.
  unfold SHA256.hex_digit.
  set (l := list_ascii_of_string "0123456789abcdef").
  destruct (Nat.lt_ge_cases (Z.to_nat n) (length l)) as [Hlt | Hge].
  - apply nth_In. exact Hlt.
  - rewrite nth_overflow by exact Hge. simpl. auto.
Qed.

Lemma hexdigest_lower_hex msg : lower_hex (SHA256.hexdigest msg).
Proof.
  unfold lower_hex, SHA256.hexdigest.
  rewrite list_ascii_of_string_of_list_ascii.
  apply List.Forall_forall. intros c Hc.
  apply in_concat in Hc. destruct Hc as [w [Hw Hc]].
  apply in_map_iff in Hw. destruct Hw as [x [<- _]].
  unfold SHA256.hex_word in Hc.
  apply in_map_iff in Hc. destruct Hc as [i [<- _]].
  apply hex_digit_lower.
Qed.

Lemma hexdigest_length msg : String.length (SHA256.hexdigest msg) = 64%nat.
Proof.
  unfold SHA256.hexdigest.
  reflexivity.
Qed.

(** * The ledger: what one call does *)

Lemma log_event_ok cfg e c st ev st' :
  log_event cfg e c st = (Ok ev, st') ->
  exists prev line t,
    _resolve_prev_hash e (_last_hash_by_run st) (durable st) (c_run_id c) = Ok prev
    /\ chain_next (VStr prev) (event_dict e c prev) = Ok (event_hash ev)
    /\ ev = make_event e c prev (event_hash ev)
    /\ validate ev = Ok ev
    /\ write_fails e = false
    /\ Orjson.dumps (VDict (model_dump ev)) = Ok line
    /\ append_audit e ev (audit_table (durable st)) = Ok t
    /\ st' = {| _last_hash_by_run :=
                  <[c_run_id c := event_hash ev]> (_last_hash_by_run st);
                durable :=
                  {| audit_table := t;
                     files := files (append_file (audit_path_of cfg (c_run_id c))
                                                 (line ++ newline) (durable st)) |} |}.
Proof.
  unfold log_event. intros H.
  destruct (_resolve_prev_hash _ _ _ _) as [prev|] eqn:Hres; [|discriminate].
  destruct (chain_next _ _) as [hash|] eqn:Hch; [|discriminate].
  destruct (validate _) as [full|] eqn:Hval; [|discriminate].
  assert (Hfull : full = make_event e c prev hash).
  { unfold validate in Hval. destruct (_ || _); congruence. }
  subst full.
  destruct (write_fails e) eqn:Hw; [discriminate|].
  destruct (Orjson.dumps _) as [line|] eqn:Hline; [|discriminate].
  destruct (append_audit _ _ _) as [t|] eqn:Happ; [|discriminate].
  injection H as <- <-. simpl.
  exists prev, line, t. repeat split; auto.
Qed.

Lemma log_event_raise cfg e c st x st' :
  log_event cfg e c st = (Raise x, st') ->
  _last_hash_by_run st' = _last_hash_by_run st
  /\ audit_table (durable st') = audit_table (durable st).
Proof.
  unfold log_event. intros H.
  destruct (_resolve_prev_hash _ _ _ _) as [prev|]; [|injection H as _ <-; auto].
  destruct (chain_next _ _) as [hash|]; [|injection H as _ <-; auto].
  destruct (validate _) as [full|]; [|injection H as _ <-; auto].
  destruct (write_fails e); [injection H as _ <-; auto|].
  destruct (Orjson.dumps _) as [line|]; [|injection H as _ <-; auto].
  destruct (append_audit _ _ _) as [t|]; [discriminate|].
  injection H as _ <-. auto.
Qed.

Lemma resolve_pending e st rid prev :
  _resolve_prev_hash e (_last_hash_by_run st) (durable st) rid = Ok prev ->
  prev = pending st rid.
Proof.
  unfold _resolve_prev_hash, pending, get_last_audit_hash.
  destruct (_last_hash_by_run st !! rid) as [h|]; [congruence|].
  destruct (select_fails e); [discriminate|]. simpl.
  destruct (last_by_id _) as [row|]; [|congruence].
  destruct (String.eqb_spec (a_event_hash row) EmptyString) as [-> | _]; congruence.
Qed.

Lemma append_audit_rows e ev t t' :
  append_audit e ev t = Ok t' ->
  exists row, t' = (t ++ [row])%list
    /\ id row = next_id t
    /\ a_run_id row = run_id ev
    /\ a_event_hash row = event_hash ev.
Proof.
  unfold append_audit. intros H.
  destruct (Orjson.dumps _) as [dj|]; [|discriminate]. simpl in H.
  destruct (commit_fails e); [discriminate|].
  destruct (negb _); [discriminate|].
  injection H as <-. eexists. repeat split.
Qed.

Lemma rows_of_app rid t1 t2 :
  rows_of rid (t1 ++ t2)%list = (rows_of rid t1 ++ rows_of rid t2)%list.
Proof. unfold rows_of. apply List.filter_app. Qed.

(** The pending hash of a run moves only when that run logs an event. *)
Lemma pending_step cfg e c st o st' rid :
  log_event cfg e c st = (o, st') ->
  match o with
  | Ok ev =>
      run_id ev = c_run_id c
      /\ prev_event_hash ev = pending st (c_run_id c)
      /\ pending st' (c_run_id c) = event_hash ev
      /\ (rid <> c_run_id c -> pending st' rid = pending st rid)
  | Raise _ => pending st' rid = pending st rid
  end.
Proof.
  intros H. destruct o as [ev | x].
  - apply log_event_ok in H.
    destruct H as (prev & line & t & Hres & _ & Hev & _ & _ & _ & Happ & ->).
    apply resolve_pending in Hres.
    split; [rewrite Hev; reflexivity|].
    split; [rewrite Hev; simpl; exact Hres|].
    split.
    + unfold pending. simpl. rewrite lookup_insert_eq. reflexivity.
    + intros Hne. unfold pending. simpl.
      rewrite lookup_insert_ne by congruence.
      apply append_audit_rows in Happ.
      destruct Happ as (row & -> & _ & Hrid & _).
      fold (rows_of rid (audit_table (durable st) ++ [row])).
      rewrite rows_of_app. unfold rows_of at 2. simpl.
      rewrite Hrid, Hev. simpl.
      destruct (String.eqb_spec (c_run_id c) rid) as [Heq | _]; [congruence|].
      rewrite app_nil_r. reflexivity.
  - apply log_event_raise in H. destruct H as [Hc Ht].
    unfold pending. rewrite Hc, Ht. reflexivity.
Qed.

Lemma linked_returned cfg cs : forall st rid,
  linked (pending st rid) (returned_for rid (fst (run cfg cs st))).
Proof.
  induction cs as [| [e c] cs IH]; intros st rid; simpl; [exact I|].
  destruct (log_event cfg e c st) as [o st1] eqn:Hstep.
  specialize (IH st1 rid).
  destruct (run cfg cs st1) as [os st2]. simpl in *.
  pose proof (pending_step cfg e c st o st1 rid Hstep) as Hp.
  destruct o as [ev | x].
  - destruct Hp as (Hrid & Hprev & Hnext & Hother).
    destruct (String.eqb_spec (run_id ev) rid) as [Heq | Hne].
    + simpl. rewrite Hrid in Heq. subst rid. split; [exact Hprev|].
      rewrite <- Hnext. exact IH.
    + rewrite <- Hother; [exact IH | congruence].
  - rewrite <- Hp. exact IH.
Qed.

Lemma linked_lookup prev evs :
  linked prev evs ->
  (forall ev, evs !! 0%nat = Some ev -> prev_event_hash ev = prev)
  /\ (forall i a b, evs !! i = Some a -> evs !! S i = Some b ->
                    prev_event_hash b = event_hash a).
Proof.
  revert prev. induction evs as [| ev evs IH]; intros prev H.
  - split; intros; discriminate.
  - destruct H as [Hp Hl]. destruct (IH _ Hl) as [H0 HS]. split.
    + intros ev' [= <-]. exact Hp.
    + intros [| i] a b Ha Hb; simpl in *.
      * injection Ha as <-. apply H0. exact Hb.
      * eapply HS; eauto.
Qed.

Lemma pending_fresh st rid :
  _last_hash_by_run st !! rid = None ->
  rows_of rid (audit_table (durable st)) = [] ->
  pending st rid = EmptyString.
Proof.
  intros Hc Ht. unfold pending. rewrite Hc.
  fold (rows_of rid (audit_table (durable st))). rewrite Ht. reflexivity.
Qed.

(** C1 (chain linkage): on one agent, starting where the run has
    neither a cached hash nor a persisted row, the events returned for
    the run by any sequence of calls are linked: the first has the empty
    [prev_event_hash] and each later one carries the [event_hash] of
    the one returned before it.  Calls for other runs and calls that
    raise may come in between. *)
Theorem chain_linkage cfg cs st rid :
  _last_hash_by_run st !! rid = None ->
  rows_of rid (audit_table (durable st)) = [] ->
  let evs := returned_for rid (fst (run cfg cs st)) in
  (forall ev, evs !! 0%nat = Some ev -> prev_event_hash ev = EmptyString)
  /\ (forall i a b, evs !! i = Some a -> evs !! S i = Some b ->
                    prev_event_hash b = event_hash a).
Proof.
  intros Hc Ht evs. apply linked_lookup.
  rewrite <- (pending_fresh st rid Hc Ht). apply linked_returned.
Qed.

Lemma chain_linkage_witness :
  let st := new_agent empty_world in
  let evs := returned_for "r1" (fst (run demo_cfg demo_calls st)) in
  _last_hash_by_run st !! "r1" = None
  /\ rows_of "r1" (audit_table (durable st)) = []
  /\ length evs = 3%nat
  /\ (forall ev, evs !! 0%nat = Some ev -> prev_event_hash ev = EmptyString)
  /\ (forall i a b, evs !! i = Some a -> evs !! S i = Some b ->
                    prev_event_hash b = event_hash a).
Proof.
  split; [reflexivity|]. split; [reflexivity|]. split; [vm_compute; reflexivity|].
  apply (chain_linkage demo_cfg demo_calls (new_agent empty_world) "r1");
    reflexivity.
Defined.

(** C2 (event hash): the [event_hash] of a returned event is
    [chain_next] of its own [prev_event_hash], the hash the ledger
    resolved, and of its fields without [event_hash]; that is the
    lowercase-hex SHA-256 digest, 64 characters, of the octets of
    [prev_event_hash] followed by the key-sorted encoding of those
    fields.  [chain_next] is a function of its two arguments: equal
    arguments give equal digests. *)
Theorem event_hash_formula cfg e c st ev st' :
  log_event cfg e c st = (Ok ev, st') ->
  _resolve_prev_hash e (_last_hash_by_run st) (durable st) (c_run_id c)
    = Ok (prev_event_hash ev)
  /\ dict_get "prev_event_hash" (dict_without "event_hash" (model_dump ev))
     = Some (VStr (prev_event_hash ev))
  /\ dict_get "event_hash" (dict_without "event_hash" (model_dump ev)) = None
  /\ chain_next (VStr (prev_event_hash ev))
                (dict_without "event_hash" (model_dump ev)) = Ok (event_hash ev)
  /\ (exists payload,
        Orjson.dumps (VDict (dict_without "event_hash" (model_dump ev))) = Ok payload
        /\ event_hash ev = SHA256.hexdigest (prev_event_hash ev ++ payload))
  /\ lower_hex (event_hash ev)
  /\ String.length (event_hash ev) = 64%nat
  /\ (forall p p' d d', p = p' -> d = d' -> chain_next p d = chain_next p' d').
Proof.
  intros H. apply log_event_ok in H.
  destruct H as (prev & line & t & Hres & Hch & Hev & _).
  assert (Hprev : prev_event_hash ev = prev) by (rewrite Hev; reflexivity).
  assert (Hdump : dict_without "event_hash" (model_dump ev) = event_dict e c prev).
  { rewrite Hev. reflexivity. }
  rewrite Hprev, Hdump.
  split; [exact Hres|]. split; [reflexivity|]. split; [reflexivity|].
  split; [exact Hch|].
  unfold chain_next, bind in Hch.
  destruct (Orjson.dumps (VDict (event_dict e c prev))) as [payload|] eqn:Hp;
    [|discriminate].
  injection Hch as Hh.
  split; [exists payload; split; [reflexivity | congruence]|].
  rewrite <- Hh.
  split; [apply hexdigest_lower_hex|].
  split; [apply hexdigest_length|].
  intros; subst; reflexivity.
Qed.

Lemma event_hash_formula_witness :
  let out := log_event demo_cfg (demo_env 1) (demo_call "r1" "s1" "ok" [])
                       (new_agent empty_world) in
  out = (Ok demo_first, snd out)
  /\ chain_next (VStr (prev_event_hash demo_first))
                (dict_without "event_hash" (model_dump demo_first))
     = Ok (event_hash demo_first).
Proof.
  intros out.
  assert (H : out = (Ok demo_first, snd out)) by (vm_compute; reflexivity).
  split; [exact H|].
  apply (event_hash_formula demo_cfg (demo_env 1) (demo_call "r1" "s1" "ok" [])
           (new_agent empty_world) demo_first (snd out) H).
Defined.

(** * The store: append order and row ids *)

Lemma last_by_id_fold rows : last_by_id rows = fold_left pick rows None.
Proof. reflexivity. Qed.

Lemma last_cons_default {A} (l : list A) (x d : A) :
  List.last (x :: l) d = List.last l x.
Proof.
  revert x d. induction l as [| y l IH]; intros x d; [reflexivity|].
  change (List.last (x :: y :: l) d) with (List.last (y :: l) d).
  rewrite IH. symmetry. apply IH.
Qed.

Lemma pick_increasing rows : forall best,
  Forall (fun r => id best < id r) rows ->
  ids_increasing rows ->
  fold_left pick rows (Some best) = Some (List.last rows best).
Proof.
  induction rows as [| r rows IH]; intros best Hb Hinc; [reflexivity|].
  apply List.Forall_cons_iff in Hb. destruct Hb as [Hr Hb].
  destruct Hinc as [Hall Hinc].
  cbn [fold_left pick].
  replace (id best <? id r) with true by (symmetry; apply Z.ltb_lt; exact Hr).
  rewrite (IH r Hall Hinc), last_cons_default. reflexivity.
Qed.

Lemma last_by_id_increasing rows :
  ids_increasing rows -> last_by_id rows = last rows.
Proof.
  rewrite last_by_id_fold. destruct rows as [| r rows]; [reflexivity|].
  intros [Hall Hinc]. cbn [fold_left pick].
  rewrite (pick_increasing rows r Hall Hinc).
  clear. revert r. induction rows as [| x rows IH]; intros r; [reflexivity|].
  rewrite last_cons_cons, <- IH.
  change (List.last (x :: rows) r) with (List.last (r :: x :: rows) r).
  rewrite !last_cons_default. reflexivity.
Qed.

Lemma ids_increasing_filter f t :
  ids_increasing t -> ids_increasing (List.filter f t).
Proof.
  induction t as [| r t IH]; [auto|].
  intros [Hall Hinc]. simpl. destruct (f r); [|auto].
  split; [|auto].
  apply List.Forall_forall. intros x Hx. apply List.filter_In in Hx.
  rewrite List.Forall_forall in Hall. apply Hall. tauto.
Qed.

Lemma ids_increasing_last t row :
  ids_increasing t -> last t = Some row -> Forall (fun r => id r <= id row) t.
Proof.
  induction t as [| r t IH]; intros Hinc Hl; [constructor|].
  destruct Hinc as [Hall Hinc]. destruct t as [| r2 t].
  - injection Hl as ->. repeat constructor. lia.
  - rewrite last_cons_cons in Hl. specialize (IH Hinc Hl). constructor; [|exact IH].
    assert (Hin : In row (r2 :: t)).
    { apply list_elem_of_In. eapply last_Some_elem_of. exact Hl. }
    rewrite List.Forall_forall in Hall. specialize (Hall row Hin). lia.
Qed.

Lemma next_id_above t : Forall (fun r => id r < next_id t) t.
Proof.
  unfold next_id. induction t as [| r t IH]; [constructor|]. simpl.
  constructor; [lia|].
  eapply List.Forall_impl; [|exact IH]. simpl. intros; lia.
Qed.

Lemma ids_increasing_snoc t row :
  ids_increasing t -> Forall (fun r => id r < id row) t ->
  ids_increasing (t ++ [row])%list.
Proof.
  induction t as [| r t IH]; intros Hinc Hall; simpl.
  - split; [constructor | exact I].
  - destruct Hinc as [Hr Hinc].
    apply List.Forall_cons_iff in Hall. destruct Hall as [Hlt Hall].
    split; [|auto].
    apply List.Forall_app. split; [exact Hr|]. repeat constructor. exact Hlt.
Qed.

(** Every call keeps the ids in append order. *)
Lemma log_event_ids_increasing cfg e c st o st' :
  log_event cfg e c st = (o, st') ->
  ids_increasing (audit_table (durable st)) ->
  ids_increasing (audit_table (durable st')).
Proof.
  intros H Hinc. destruct o as [ev | x].
  - apply log_event_ok in H.
    destruct H as (prev & line & t & _ & _ & _ & _ & _ & _ & Happ & ->). simpl.
    apply append_audit_rows in Happ. destruct Happ as (row & -> & Hid & _).
    apply ids_increasing_snoc; [exact Hinc|].
    rewrite Hid. apply next_id_above.
  - apply log_event_raise in H. destruct H as [_ ->]. exact Hinc.
Qed.

Lemma run_ids_increasing cfg cs : forall st,
  ids_increasing (audit_table (durable st)) ->
  ids_increasing (audit_table (durable (snd (run cfg cs st)))).
Proof.
  induction cs as [| [e c] cs IH]; intros st Hinc; [exact Hinc|]. simpl.
  destruct (log_event cfg e c st) as [o st1] eqn:Hstep.
  specialize (IH st1 (log_event_ids_increasing _ _ _ _ _ _ Hstep Hinc)).
  destruct (run cfg cs st1) as [os st2]. exact IH.
Qed.

Lemma pending_cold w rid row :
  ids_increasing (audit_table w) ->
  last (rows_of rid (audit_table w)) = Some row ->
  pending (new_agent w) rid = a_event_hash row.
Proof.
  intros Hinc Hl. unfold pending. simpl. rewrite lookup_empty.
  fold (rows_of rid (audit_table w)).
  rewrite last_by_id_increasing by (apply ids_increasing_filter; exact Hinc).
  rewrite Hl. reflexivity.
Qed.

(** C4 (restart recovery): an agent constructed over a store that
    already holds rows of the run, its cache empty, chains the next
    event to the [event_hash] of the row of that run appended last;
    that row is the one with the largest id, whatever the rows'
    timestamps are. *)
Theorem restart_recovery cfg e c w ev st' row :
  ids_increasing (audit_table w) ->
  last (rows_of (c_run_id c) (audit_table w)) = Some row ->
  log_event cfg e c (new_agent w) = (Ok ev, st') ->
  prev_event_hash ev = a_event_hash row
  /\ Forall (fun r => id r <= id row) (rows_of (c_run_id c) (audit_table w)).
Proof.
  intros Hinc Hl H. split.
  - pose proof (pending_step cfg e c (new_agent w) (Ok ev) st' (c_run_id c) H)
      as (_ & Hprev & _).
    rewrite Hprev. apply pending_cold; assumption.
  - apply ids_increasing_last; [|exact Hl].
    apply ids_increasing_filter. exact Hinc.
Qed.

Lemma restart_recovery_witness :
  let w := durable demo_state in
  let c := demo_call "r1" "s4" "ok" [] in
  let out := log_event demo_cfg (demo_env 0) c (new_agent w) in
  exists row,
    ids_increasing (audit_table w)
    /\ last (rows_of (c_run_id c) (audit_table w)) = Some row
    /\ out = (Ok demo_fourth, snd out)
    /\ a_step row = "s3"
    /\ prev_event_hash demo_fourth = a_event_hash row.
Proof.
  intros w c out.
  assert (Hinc : ids_increasing (audit_table w)).
  { apply run_ids_increasing. exact I. }
  assert (Hl : exists row, demo_last_row = Some row /\ a_step row = "s3").
  { eexists. split; reflexivity. }
  destruct Hl as (row & Hl & Hstep).
  assert (Hl' : last (rows_of (c_run_id c) (audit_table w)) = Some row).
  { rewrite <- Hl. vm_compute. reflexivity. }
  assert (H : out = (Ok demo_fourth, snd out)) by (vm_compute; reflexivity).
  exists row. repeat (split; [assumption|]).
  apply (restart_recovery demo_cfg (demo_env 0) c w demo_fourth (snd out) row
           Hinc Hl' H).
Defined.

(** * The ledger: calls that raise *)

(** C8 (recovery failure): with no cached hash for the run, a store
    that fails while the previous hash is looked up makes the call
    raise that error; no event is built on an empty previous hash and
    the cache, the table and the files are as before the call. *)
Theorem recovery_error_propagates cfg e c st :
  _last_hash_by_run st !! c_run_id c = None ->
  select_fails e = true ->
  log_event cfg e c st = (Raise OperationalError, st).
Proof.
  intros Hc Hf. unfold log_event, _resolve_prev_hash, get_last_audit_hash.
  rewrite Hc, Hf. reflexivity.
Qed.

Lemma recovery_error_propagates_witness :
  let st := new_agent empty_world in
  let c := demo_call "r1" "s1" "ok" [] in
  _last_hash_by_run st !! c_run_id c = None
  /\ select_fails failing_select = true
  /\ log_event demo_cfg failing_select c st = (Raise OperationalError, st).
Proof.
  split; [reflexivity|]. split; [reflexivity|].
  apply (recovery_error_propagates demo_cfg failing_select
           (demo_call "r1" "s1" "ok" []) (new_agent empty_world));
    reflexivity.
Defined.

Lemma resolve_depends e st st' rid :
  _last_hash_by_run st' = _last_hash_by_run st ->
  audit_table (durable st') = audit_table (durable st) ->
  _resolve_prev_hash e (_last_hash_by_run st') (durable st') rid
  = _resolve_prev_hash e (_last_hash_by_run st) (durable st) rid.
Proof.
  intros Hc Ht. unfold _resolve_prev_hash. rewrite Hc, Ht. reflexivity.
Qed.

Lemma resolve_ok_any_env e e' st rid p :
  _resolve_prev_hash e (_last_hash_by_run st) (durable st) rid = Ok p ->
  select_fails e' = false ->
  _resolve_prev_hash e' (_last_hash_by_run st) (durable st) rid = Ok p.
Proof.
  unfold _resolve_prev_hash, get_last_audit_hash. intros H Hf.
  destruct (_last_hash_by_run st !! rid); [exact H|].
  rewrite Hf. destruct (select_fails e); [discriminate|]. exact H.
Qed.

(** C10 (cache after a failure): a call that raises, for whatever
    reason, leaves the cache as it was, so the cache changes only
    when the hash, the file append and the store write have all
    succeeded; a later call for the same run whose store lookup does
    not fail resolves the previous hash the failed call had resolved. *)
Theorem failed_call_keeps_cache cfg e c st x st' :
  log_event cfg e c st = (Raise x, st') ->
  _last_hash_by_run st' = _last_hash_by_run st
  /\ (forall e' rid,
        _resolve_prev_hash e' (_last_hash_by_run st') (durable st') rid
        = _resolve_prev_hash e' (_last_hash_by_run st) (durable st) rid)
  /\ (forall e' p,
        _resolve_prev_hash e (_last_hash_by_run st) (durable st) (c_run_id c) = Ok p ->
        select_fails e' = false ->
        _resolve_prev_hash e' (_last_hash_by_run st') (durable st') (c_run_id c)
        = Ok p).
Proof.
  intros H. apply log_event_raise in H. destruct H as [Hc Ht].
  split; [exact Hc|]. split.
  - intros e' rid. apply resolve_depends; assumption.
  - intros e' p Hp Hf. rewrite (resolve_depends e' st st') by assumption.
    eapply resolve_ok_any_env; eassumption.
Qed.

Lemma failed_call_keeps_cache_witness :
  let c := demo_call "r1" "s4" "ok" [] in
  let out := log_event demo_cfg failing_commit c demo_state in
  out = (Raise OperationalError, snd out)
  /\ _last_hash_by_run (snd out) = _last_hash_by_run demo_state
  /\ _resolve_prev_hash (demo_env 9) (_last_hash_by_run (snd out))
                        (durable (snd out)) "r1"
     = _resolve_prev_hash (demo_env 9) (_last_hash_by_run demo_state)
                          (durable demo_state) "r1".
Proof.
  intros c out.
  assert (H : out = (Raise OperationalError, snd out)) by (vm_compute; reflexivity).
  split; [exact H|].
  pose proof (failed_call_keeps_cache demo_cfg failing_commit c demo_state
                OperationalError (snd out) H) as (Hc & Hr & _).
  split; [exact Hc | apply Hr].
Defined.

(** * The encoder: which values it accepts *)

Lemma dumps_list l :
  Orjson.dumps (VList l) =
  let* parts := dumps_each l in Ok ("[" ++ String.concat "," parts ++ "]").
Proof. reflexivity. Qed.

Lemma dumps_dict d :
  Orjson.dumps (VDict d) =
  let* items := dumps_items d in
  Ok ("{" ++ String.concat "," (map Orjson.member (Orjson.sort_items items)) ++ "}").
Proof. reflexivity. Qed.

Lemma dumps_each_cons x r :
  dumps_each (x :: r) =
  let* sx := Orjson.dumps x in let* sr := dumps_each r in Ok (sx :: sr).
Proof. reflexivity. Qed.

Lemma dumps_items_cons k x r :
  dumps_items ((k, x) :: r) =
  let* sx := Orjson.dumps x in let* sr := dumps_items r in Ok ((k, sx) :: sr).
Proof. reflexivity. Qed.

Lemma is_ok_bind {A B} (r : result A) (k : A -> result B) :
  is_ok (bind r k) = match r with Ok a => is_ok (k a) | Raise _ => false end.
Proof. destruct r; reflexivity. Qed.

Lemma dumps_each_ok l :
  Forall (fun v => is_ok (Orjson.dumps v) = encodable v) l ->
  is_ok (dumps_each l) = forallb encodable l.
Proof.
  induction 1 as [| x r Hx _ IH]; [reflexivity|].
  rewrite dumps_each_cons. simpl forallb. rewrite <- Hx, <- IH.
  destruct (Orjson.dumps x); [|reflexivity]. simpl.
  destruct (dumps_each r); reflexivity.
Qed.

Lemma dumps_items_ok d :
  Forall (fun kv => is_ok (Orjson.dumps (snd kv)) = encodable (snd kv)) d ->
  is_ok (dumps_items d) = forallb (fun kv => encodable (snd kv)) d.
Proof.
  induction 1 as [| [k x] r Hx _ IH]; [reflexivity|].
  rewrite dumps_items_cons. simpl forallb. simpl in Hx. rewrite <- Hx, <- IH.
  destruct (Orjson.dumps x); [|reflexivity]. simpl.
  destruct (dumps_items r); reflexivity.
Qed.

(** The encoder raises exactly on the values that are not [encodable]. *)
Lemma dumps_ok_encodable v : is_ok (Orjson.dumps v) = encodable v.
Proof.
  induction v as [| b | n | f | s | l IH | d IH |] using value_nested_ind;
    try reflexivity.
  - destruct b; reflexivity.
  - simpl. destruct (Orjson.int_fits n); reflexivity.
  - rewrite dumps_list, is_ok_bind.
    change (encodable (VList l)) with (forallb encodable l).
    rewrite <- (dumps_each_ok l IH). destruct (dumps_each l); reflexivity.
  - rewrite dumps_dict, is_ok_bind.
    change (encodable (VDict d)) with (forallb (fun kv => encodable (snd kv)) d).
    rewrite <- (dumps_items_ok d IH). destruct (dumps_items d); reflexivity.
Qed.

Lemma dumps_each_raise l x :
  Forall (fun v => forall x, Orjson.dumps v = Raise x -> x = JSONEncodeError) l ->
  dumps_each l = Raise x -> x = JSONEncodeError.
Proof.
  induction 1 as [| v r Hv _ IH]; [discriminate|].
  rewrite dumps_each_cons.
  destruct (Orjson.dumps v) as [sv | y] eqn:Hd; simpl.
  - destruct (dumps_each r) as [sr | z]; simpl; [discriminate|].
    intros [= <-]. apply IH. reflexivity.
  - intros [= <-]. apply Hv. reflexivity.
Qed.

Lemma dumps_items_raise d x :
  Forall (fun kv => forall x, Orjson.dumps (snd kv) = Raise x -> x = JSONEncodeError) d ->
  dumps_items d = Raise x -> x = JSONEncodeError.
Proof.
  induction 1 as [| [k v] r Hv _ IH]; [discriminate|].
  rewrite dumps_items_cons. simpl in Hv.
  destruct (Orjson.dumps v) as [sv | y] eqn:Hd; simpl.
  - destruct (dumps_items r) as [sr | z]; simpl; [discriminate|].
    intros [= <-]. apply IH. reflexivity.
  - intros [= <-]. apply Hv. reflexivity.
Qed.

Lemma dumps_raise v : forall x, Orjson.dumps v = Raise x -> x = JSONEncodeError.
Proof.
  induction v as [| b | n | f | s | l IH | d IH |] using value_nested_ind;
    intros x; try discriminate.
  - destruct b; discriminate.
  - simpl. destruct (Orjson.int_fits n); [discriminate | congruence].
  - rewrite dumps_list.
    destruct (dumps_each l) eqn:He; simpl; [discriminate|].
    intros [= <-]. eapply dumps_each_raise; eassumption.
  - rewrite dumps_dict.
    destruct (dumps_items d) eqn:He; simpl; [discriminate|].
    intros [= <-]. eapply dumps_items_raise; eassumption.
  - simpl. congruence.
Qed.

Lemma dumps_not_encodable v :
  encodable v = false -> Orjson.dumps v = Raise JSONEncodeError.
Proof.
  intros H. rewrite <- dumps_ok_encodable in H.
  destruct (Orjson.dumps v) as [s | x] eqn:Hd; [discriminate|].
  f_equal. eapply dumps_raise. exact Hd.
Qed.

Lemma dumps_encodable v :
  encodable v = true -> exists s, Orjson.dumps v = Ok s.
Proof.
  intros H. rewrite <- dumps_ok_encodable in H.
  destruct (Orjson.dumps v) as [s | x]; [eauto | discriminate].
Qed.

Lemma event_dict_encodable e c prev :
  encodable (VDict (event_dict e c prev))
  = Orjson.int_fits (now_ns e) && encodable (VDict (c_details c)).
Proof.
  simpl.
  assert (Hp : forallb encodable (map VStr (default [] (c_artifact_paths c))) = true).
  { induction (default [] (c_artifact_paths c)); simpl; auto. }
  rewrite Hp.
  destruct (c_input_digest c), (c_output_digest c); simpl;
    rewrite ?andb_true_r; reflexivity.
Qed.

(** C7 as the code has it: when [details] holds a value the encoder
    rejects (an object of a type it does not know, an int beyond 64
    bits) the call raises before anything is written: the cache, the
    table and the files are unchanged, and the error is the encoder's
    unless the lookup of the previous hash had already failed. *)
Theorem encoding_error_aborts cfg e c st :
  encodable (VDict (c_details c)) = false ->
  snd (log_event cfg e c st) = st
  /\ match _resolve_prev_hash e (_last_hash_by_run st) (durable st) (c_run_id c) with
     | Ok _ => fst (log_event cfg e c st) = Raise JSONEncodeError
     | Raise x => fst (log_event cfg e c st) = Raise x
     end.
Proof.
  intros H. unfold log_event.
  destruct (_resolve_prev_hash _ _ _ _) as [prev | x]; [|split; reflexivity].
  assert (Hd : Orjson.dumps (VDict (event_dict e c prev)) = Raise JSONEncodeError).
  { apply dumps_not_encodable. rewrite event_dict_encodable, H.
    apply andb_false_r. }
  unfold chain_next, bind. rewrite Hd. split; reflexivity.
Qed.

Lemma encoding_error_aborts_witness :
  let c := demo_call "r1" "s1" "ok" [("blob", VObject)] in
  encodable (VDict (c_details c)) = false
  /\ snd (log_event demo_cfg (demo_env 4) c demo_state) = demo_state.
Proof.
  intros c. split; [reflexivity|].
  apply (encoding_error_aborts demo_cfg (demo_env 4) c demo_state eq_refl).
Defined.

(** C7 as stated fails: a NaN in [details] does not stop the call.  The
    event is returned, a row is stored and the line appended carries
    [null] where the float was. *)
Lemma nan_is_written_as_null :
  let c := demo_call "r1" "s1" "ok" [("x", VFloat NaN)] in
  let out := log_event demo_cfg (demo_env 1) c (new_agent empty_world) in
  encodable (VDict (c_details c)) = true
  /\ is_ok (fst out) = true
  /\ length (audit_table (durable (snd out))) = 1%nat
  /\ files (durable (snd out)) !! demo_path
     = Some (js ("{'artifact_paths':[],'details':{'x':null},'event_hash':"
                 ++ "'d8c73304e4b88744c4bd7cf6eb4f8e6503ac1c40de8da0496b18c694676f6001',"
                 ++ "'input_digest':null,'output_digest':null,'prev_event_hash':'',"
                 ++ "'run_id':'r1','status':'ok','step':'s1',"
                 ++ "'ts_iso':'2025-01-01T00:00:00Z','ts_ns':1}") ++ newline).
Proof. vm_compute. repeat split; reflexivity. Qed.

(** * The verifier: where it stops *)








(** * Reading back what the encoder wrote *)

Lemma sapp_assoc (a b c : string) : ((a ++ b) ++ c = a ++ (b ++ c))%string.
Proof.
  induction a as [| x a IH]; [reflexivity|].
  change (String x ((a ++ b) ++ c)%string = String x (a ++ (b ++ c))%string).
  rewrite IH. reflexivity.
Qed.

Lemma sapp_nil_r (a : string) : (a ++ EmptyString)%string = a.
Proof.
  induction a as [| x a IH]; [reflexivity|].
  change (String x (a ++ EmptyString)%string = String x a).
  rewrite IH. reflexivity.
Qed.

Lemma sapp_length (a b : string) :
  String.length (a ++ b) = (String.length a + String.length b)%nat.
Proof.
  induction a as [| x a IH]; [reflexivity|].
  change (S (String.length (a ++ b)) = S (String.length a + String.length b)).
  rewrite IH. reflexivity.
Qed.

(** ** Strings *)




(** ** Integers *)


Lemma sapp_cons c (a b : string) : (String c a ++ b)%string = String c (a ++ b).
Proof. reflexivity. Qed.










Lemma terminator_cases rest :
  terminator rest = true ->
  rest = EmptyString
  \/ exists r, rest = String (ascii_of_N 44) r
               \/ rest = String (ascii_of_N 93) r
               \/ rest = String (ascii_of_N 125) r.
Proof.
  destruct rest as [| c r]; [auto|]. intros H. right. exists r.
  destruct c as [[] [] [] [] [] [] [] []]; try discriminate H; auto.
Qed.



Lemma terminator_skip_ws rest :
  terminator rest = true -> Json.skip_ws rest = rest.
Proof.
  intros H. destruct (terminator_cases rest H) as [-> | (r & [-> | [-> | ->]])];
    reflexivity.
Qed.






(** ** Sorting the items of a dict *)









(** ** The shape of the encoder's output *)








(** ** The scanner on the encoder's output *)

Lemma scan_once_eq n s :
  Json.scan_once (S n) s =
  match s with
  | EmptyString => Raise JSONDecodeError
  | String c r =>
      if Json.is_char c 34 then
        let* (t, rest) := Json.scan_string r in Ok (VStr t, rest)
      else if Json.is_char c 123 then
        match Json.skip_ws r with
        | String c1 r1 =>
            if Json.is_char c1 125 then Ok (VDict [], r1)
            else
              let* (kvs, rest) := Json.members n (String c1 r1) in
              Ok (VDict (fold_left (fun d kv => dict_set (fst kv) (snd kv) d) kvs []),
                  rest)
        | EmptyString => Raise JSONDecodeError
        end
      else if Json.is_char c 91 then
        match Json.skip_ws r with
        | String c1 r1 =>
            if Json.is_char c1 93 then Ok (VList [], r1)
            else
              let* (vs, rest) := Json.elements n (String c1 r1) in
              Ok (VList vs, rest)
        | EmptyString => Raise JSONDecodeError
        end
      else Json.scan_atom s
  end.
Proof. reflexivity. Qed.







Lemma dumps_items_inv k x d items :
  dumps_items ((k, x) :: d) = Ok items ->
  exists sx sl, items = (k, sx) :: sl /\ Orjson.dumps x = Ok sx
                /\ dumps_items d = Ok sl.
Proof.
  rewrite dumps_items_cons.
  destruct (Orjson.dumps x) as [sx|]; [|discriminate]. cbn [bind].
  destruct (dumps_items d) as [sl|]; [|discriminate]. cbn [bind].
  intros [= <-]. eauto.
Qed.










Lemma scan_literal lit v fuel rest :
  Json.scan_atom (lit ++ rest) = Ok (v, rest) ->
  (exists c s, lit = String c s
               /\ Json.is_char c 34 = false
               /\ Json.is_char c 123 = false
               /\ Json.is_char c 91 = false) ->
  Json.scan_once (S fuel) (lit ++ rest) = Ok (v, rest).
Proof.
  intros H (c & s & -> & Hq & Hb & Hk). rewrite scan_once_eq.
  rewrite sapp_cons in *. rewrite Hq, Hb, Hk. exact H.
Qed.


(** ** json.loads on the encoder's output *)


Lemma list_sum_le {A} (f g : A -> nat) l :
  Forall (fun x => f x <= g x)%nat l ->
  (list_sum (map f l) <= list_sum (map g l))%nat.
Proof.
  induction 1 as [| x l Hx _ IH]; cbn [map list_sum fold_right] in *; [lia|].
  unfold list_sum in IH. lia.
Qed.







(** * The encoder: injectivity *)






(** * Runs do not see each other *)




Lemma rows_of_snoc rid t row :
  rows_of rid (t ++ [row])%list
  = (rows_of rid t ++ (if String.eqb (a_run_id row) rid then [row] else []))%list.
Proof. rewrite rows_of_app. reflexivity. Qed.


Lemma files_append_same p data w1 w2 :
  files w1 !! p = files w2 !! p ->
  files (append_file p data w1) !! p = files (append_file p data w2) !! p.
Proof.
  intros H. unfold append_file. cbn [files].
  rewrite !lookup_insert_eq, H. reflexivity.
Qed.










(** * Lines: what [splitlines] does to the text the ledger writes *)



Lemma sapp_nil_l (s : string) : (EmptyString ++ s)%string = s.
Proof. reflexivity. Qed.





(** ** Texts that start with an ASCII character *)




Lemma plain_app x y : plain x = true -> plain y = true -> plain (x ++ y) = true.
Proof.
  induction x as [| c x IH]; intros Hx Hy; [exact Hy|].
  cbn [plain] in Hx. apply andb_true_iff in Hx. destruct Hx as [Hc Hx].
  rewrite sapp_cons. cbn [plain]. rewrite Hc, IH by assumption. reflexivity.
Qed.






(** * UTF-8: the text the ledger writes decodes *)





(** ** What the encoder does to one character *)










(** * Escaping and line boundaries *)














(** * The line of an event, read by the verifier *)



Lemma canonical_strs l : canonical (VList (map VStr l)) = VList (map VStr l).
Proof.
  cbn [canonical]. f_equal. induction l as [| s l IH]; [reflexivity|].
  cbn [map]. rewrite IH. reflexivity.
Qed.

Lemma canonical_opt o : canonical (opt_str o) = opt_str o.
Proof. destruct o; reflexivity. Qed.















(** * Round trip: the file of a run verifies *)








(** * Round trip: verifying what the ledger wrote *)

(** The end-to-end scenario of the specification: three events for
    run r1, three lines, and the verifier accepts them. *)
Lemma scenario_verifies :
  length (Text.splitlines demo_file) = 3%nat
  /\ verify_chain (durable demo_state) demo_path
     = Ok {| r_run_id := VStr "r1"; r_events := 3; r_valid := true;
             r_break_index := None |}.
Proof. split; vm_compute; reflexivity. Qed.

(** An empty file is valid and holds no event. *)
Lemma empty_file_verifies :
  verify_text EmptyString
  = Ok {| r_run_id := VNone; r_events := 0; r_valid := true;
          r_break_index := None |}.
Proof. reflexivity. Qed.

(** C3 fails on the code: one successful call whose details hold the
    character U+2028 writes a line that [splitlines] cuts in two, and
    the verifier raises JSONDecodeError on the first half instead of
    returning [valid = true] with one event. *)
Theorem line_separator_breaks_verifier :
  let out := log_event demo_cfg (demo_env 1) separator_call (new_agent empty_world) in
  is_ok (fst out) = true
  /\ length (audit_table (durable (snd out))) = 1%nat
  /\ length (Text.splitlines
               (default EmptyString (files (durable (snd out)) !! demo_path))) = 2%nat
  /\ verify_chain (durable (snd out)) demo_path = Raise JSONDecodeError.
Proof.
  intros out.
  split; [vm_compute; reflexivity|]. split; [vm_compute; reflexivity|].
  split; vm_compute; reflexivity.
Qed.

(** * hashing.chain_next: the order of the payload's keys *)

Lemma ascii_compare_trans a b c :
  Ascii.compare a b <> Gt -> Ascii.compare b c <> Gt -> Ascii.compare a c <> Gt.
Proof.
  unfold Ascii.compare. intros H1 H2 H3.
  apply N.compare_gt_iff in H3.
  pose proof (proj1 (N.compare_le_iff _ _) H1).
  pose proof (proj1 (N.compare_le_iff _ _) H2). lia.
Qed.

Lemma compare_trans a : forall b c,
  String.compare a b <> Gt -> String.compare b c <> Gt -> String.compare a c <> Gt.
Proof.
  induction a as [| x a IH]; intros [| y b] [| z c]; cbn [String.compare];
    try congruence.
  destruct (Ascii.compare x y) eqn:Hxy; [| |congruence];
    destruct (Ascii.compare y z) eqn:Hyz; try congruence.
  - apply Ascii.compare_eq_iff in Hxy, Hyz. subst y z.
    replace (Ascii.compare x x) with Eq
      by (symmetry; unfold Ascii.compare; apply N.compare_refl).
    apply IH.
  - apply Ascii.compare_eq_iff in Hxy. subst y. rewrite Hyz. congruence.
  - apply Ascii.compare_eq_iff in Hyz. subst z. rewrite Hxy. congruence.
  - intros _ _.
    assert (H : Ascii.compare x z <> Gt)
      by (apply (ascii_compare_trans x y z); congruence).
    destruct (Ascii.compare x z) eqn:Hxz; [| congruence | congruence].
    apply Ascii.compare_eq_iff in Hxz. subst z.
    rewrite Ascii.compare_antisym, Hxy in Hyz. discriminate Hyz.
Qed.

Lemma leb_trans a b c :
  String.leb a b = true -> String.leb b c = true -> String.leb a c = true.
Proof.
  unfold String.leb. intros H1 H2.
  pose proof (compare_trans a b c) as H.
  destruct (String.compare a b); destruct (String.compare b c);
    destruct (String.compare a c); try reflexivity; try discriminate;
    exfalso; apply H; congruence.
Qed.

(** Two items with different keys are inserted in either order. *)
Lemma insert_item_comm {A} (x y : string * A) s :
  fst x <> fst y ->
  Orjson.insert_item x (Orjson.insert_item y s)
  = Orjson.insert_item y (Orjson.insert_item x s).
Proof.
  intros Hne.
  assert (Hxy : String.leb (fst x) (fst y) = true -> String.leb (fst y) (fst x) = false).
  { intros H. destruct (String.leb (fst y) (fst x)) eqn:H'; [|reflexivity].
    exfalso. apply Hne. apply String.leb_antisym; assumption. }
  assert (Hyx : String.leb (fst x) (fst y) = false -> String.leb (fst y) (fst x) = true).
  { intros H. destruct (String.leb_total (fst x) (fst y)) as [H'|H']; congruence. }
  induction s as [| h t IH]; cbn [Orjson.insert_item].
  - destruct (String.leb (fst x) (fst y)) eqn:E.
    + rewrite (Hxy eq_refl). reflexivity.
    + rewrite (Hyx eq_refl). reflexivity.
  - destruct (String.leb (fst y) (fst h)) eqn:Eyh;
      destruct (String.leb (fst x) (fst h)) eqn:Exh; cbn [Orjson.insert_item].
    + destruct (String.leb (fst x) (fst y)) eqn:E.
      * rewrite (Hxy eq_refl), Eyh. reflexivity.
      * rewrite (Hyx eq_refl), Exh. reflexivity.
    + assert (E : String.leb (fst x) (fst y) = false).
      { destruct (String.leb (fst x) (fst y)) eqn:E; [|reflexivity].
        rewrite (leb_trans _ _ _ E Eyh) in Exh. discriminate Exh. }
      rewrite E, Exh, Eyh. reflexivity.
    + assert (E : String.leb (fst y) (fst x) = false).
      { destruct (String.leb (fst y) (fst x)) eqn:E; [|reflexivity].
        rewrite (leb_trans _ _ _ E Exh) in Eyh. discriminate Eyh. }
      rewrite E, Exh, Eyh. reflexivity.
    + rewrite Exh, Eyh, IH. reflexivity.
Qed.

(** Sorting forgets the order of items whose keys are all different. *)
Lemma sort_items_permuted {A} (l1 l2 : list (string * A)) :
  Permutation l1 l2 -> List.NoDup (map fst l1) ->
  Orjson.sort_items l1 = Orjson.sort_items l2.
Proof.
  induction 1 as [| x l l' _ IH | x y l | l l' l'' H1 IH1 H2 IH2]; intros Hnd.
  - reflexivity.
  - cbn [map] in Hnd. apply List.NoDup_cons_iff in Hnd.
    unfold Orjson.sort_items. cbn [fold_right].
    fold (Orjson.sort_items l). fold (Orjson.sort_items l').
    rewrite (IH (proj2 Hnd)). reflexivity.
  - unfold Orjson.sort_items. cbn [fold_right].
    apply insert_item_comm.
    cbn [map] in Hnd. apply List.NoDup_cons_iff in Hnd.
    intros E. apply (proj1 Hnd). left. symmetry. exact E.
  - rewrite (IH1 Hnd). apply IH2.
    eapply Permutation_NoDup; [|exact Hnd].
    apply Permutation_map. exact H1.
Qed.

Lemma dumps_items_permuted p q :
  Permutation p q ->
  forall ip, dumps_items p = Ok ip ->
  exists iq, dumps_items q = Ok iq /\ Permutation ip iq.
Proof.
  induction 1 as [| [k x] l l' _ IH | [k x] [k' y] l | l l' l'' _ IH1 _ IH2];
    intros ip Hp.
  - exists ip. split; [exact Hp | apply Permutation_refl].
  - apply dumps_items_inv in Hp. destruct Hp as (sx & sl & -> & Hx & Hl).
    destruct (IH sl Hl) as (iq & Hq & Hperm).
    exists ((k, sx) :: iq). rewrite dumps_items_cons, Hx, Hq.
    split; [reflexivity | apply perm_skip; exact Hperm].
  - apply dumps_items_inv in Hp. destruct Hp as (sy & sl & -> & Hy & Hl).
    apply dumps_items_inv in Hl. destruct Hl as (sx & sl' & -> & Hx & Hl).
    exists ((k, sx) :: (k', sy) :: sl').
    rewrite dumps_items_cons, Hx. cbn [bind].
    rewrite dumps_items_cons, Hy, Hl.
    split; [reflexivity | apply perm_swap].
  - destruct (IH1 ip Hp) as (iq & Hq & Hperm).
    destruct (IH2 iq Hq) as (ir & Hr & Hperm').
    exists ir. split; [exact Hr | eapply Permutation_trans; eassumption].
Qed.

Lemma dumps_items_keys d : forall items,
  dumps_items d = Ok items -> map fst items = map fst d.
Proof.
  induction d as [| [k x] d IH]; intros items H.
  - injection H as <-. reflexivity.
  - apply dumps_items_inv in H. destruct H as (sx & sl & -> & _ & Hl).
    cbn [map fst]. rewrite (IH sl Hl). reflexivity.
Qed.

Lemma encodable_permuted p q :
  Permutation p q -> encodable (VDict p) = encodable (VDict q).
Proof.
  cbn [encodable].
  induction 1 as [| x l l' _ IH | x y l | l l' l'' _ IH1 _ IH2]; cbn [forallb].
  - reflexivity.
  - rewrite IH. reflexivity.
  - rewrite !andb_assoc, (andb_comm (encodable (snd y))). reflexivity.
  - congruence.
Qed.

(** The text of a dict does not depend on the order of its items. *)
Lemma dumps_dict_permuted p q :
  List.NoDup (map fst p) -> Permutation p q ->
  Orjson.dumps (VDict p) = Orjson.dumps (VDict q).
Proof.
  intros Hnd Hperm.
  destruct (Orjson.dumps (VDict p)) as [s | x] eqn:Hp.
  - rewrite dumps_dict in Hp |- *.
    destruct (dumps_items p) as [ip|] eqn:Hip; [|discriminate Hp].
    destruct (dumps_items_permuted p q Hperm ip Hip) as (iq & Hiq & Hpi).
    rewrite Hiq. cbn [bind] in Hp |- *.
    rewrite <- (sort_items_permuted ip iq Hpi); [symmetry; exact Hp|].
    rewrite (dumps_items_keys p ip Hip). exact Hnd.
  - pose proof (dumps_ok_encodable (VDict p)) as Hok.
    rewrite Hp, (encodable_permuted p q Hperm) in Hok. cbn [is_ok] in Hok.
    rewrite (dumps_raise _ _ Hp).
    symmetry. apply dumps_not_encodable. symmetry. exact Hok.
Qed.

(** X2.  [chain_next] gives the same digest (or raises the same error)
    whatever the order in which the keys of the payload were inserted:
    the encoder sorts them. *)
Theorem chain_next_key_order prev p q :
  List.NoDup (map fst p) -> Permutation p q ->
  chain_next prev p = chain_next prev q.
Proof.
  intros Hnd Hperm. unfold chain_next.
  rewrite (dumps_dict_permuted p q Hnd Hperm). reflexivity.
Qed.

Lemma chain_next_key_order_witness :
  let p := [("step", VStr "s1"); ("run_id", VStr "r1"); ("n", VInt 7)] in
  let q := [("n", VInt 7); ("step", VStr "s1"); ("run_id", VStr "r1")] in
  List.NoDup (map fst p) /\ Permutation p q
  /\ chain_next (VStr "ab") p = chain_next (VStr "ab") q.
Proof.
  intros p q.
  assert (Hnd : List.NoDup (map fst p)).
  { cbn [p map fst].
    repeat (apply List.NoDup_cons;
            [cbn [In]; intros H;
             repeat (destruct H as [H | H]; [discriminate H|]); exact H|]).
    apply List.NoDup_nil. }
  assert (Hperm : Permutation p q).
  { unfold p, q.
    eapply Permutation_trans; [apply perm_skip; apply perm_swap|].
    apply perm_swap. }
  split; [exact Hnd|]. split; [exact Hperm|].
  apply (chain_next_key_order (VStr "ab") p q Hnd Hperm).
Defined.

(** * audit.log_event: the status check and the order of the two writes *)

(** X3.  A call whose status is neither "ok" nor "error" raises and
    writes nothing: the state is the one before the call.  The error
    is the ValidationError of [AuditEvent(...)] unless the lookup of
    the previous hash or the encoder had failed before. *)
Theorem invalid_status_aborts cfg e c st :
  c_status c <> "ok" -> c_status c <> "error" ->
  snd (log_event cfg e c st) = st
  /\ match _resolve_prev_hash e (_last_hash_by_run st) (durable st) (c_run_id c) with
     | Raise x => fst (log_event cfg e c st) = Raise x
     | Ok prev =>
         match chain_next (VStr prev) (event_dict e c prev) with
         | Raise x => fst (log_event cfg e c st) = Raise x
         | Ok _ => fst (log_event cfg e c st) = Raise ValidationError
         end
     end.
Proof.
  intros Hok Herr. unfold log_event.
  destruct (_resolve_prev_hash _ _ _ _) as [prev | x]; [|split; reflexivity].
  destruct (chain_next _ _) as [h | x]; [|split; reflexivity].
  unfold validate. cbn [status make_event].
  apply String.eqb_neq in Hok, Herr. rewrite Hok, Herr.
  split; reflexivity.
Qed.

Lemma invalid_status_aborts_witness :
  let c := demo_call "r1" "s4" "warning" [] in
  c_status c <> "ok" /\ c_status c <> "error"
  /\ snd (log_event demo_cfg (demo_env 4) c demo_state) = demo_state.
Proof.
  intros c.
  assert (H1 : c_status c <> "ok") by discriminate.
  assert (H2 : c_status c <> "error") by discriminate.
  split; [exact H1|]. split; [exact H2|].
  exact (proj1 (invalid_status_aborts demo_cfg (demo_env 4) c demo_state H1 H2)).
Defined.

Lemma model_dump_encodable e c prev h :
  encodable (VDict (model_dump (make_event e c prev h)))
  = encodable (VDict (event_dict e c prev)).
Proof.
  cbn [encodable model_dump event_dict make_event forallb snd
       run_id step status ts_iso ts_ns input_digest output_digest
       artifact_paths details prev_event_hash event_hash].
  rewrite !andb_true_r. reflexivity.
Qed.

Lemma chain_next_encodable prev d h :
  chain_next prev d = Ok h -> encodable (VDict d) = true.
Proof.
  unfold chain_next. intros H.
  rewrite <- dumps_ok_encodable.
  destruct prev; try discriminate H; cbn [bind] in H;
    destruct (Orjson.dumps (VDict d)); try discriminate H; reflexivity.
Qed.

(** X4.  The line is written before the row is stored.  When the call
    gets as far as the store and the commit fails, [log_event] raises
    the store's error, the line of the event stays in audit.jsonl, and
    the cache and the table are as before: the next event of the run
    will be chained to the same previous hash as the line left
    behind. *)
Theorem failed_commit_leaves_line cfg e c st prev h :
  _resolve_prev_hash e (_last_hash_by_run st) (durable st) (c_run_id c) = Ok prev ->
  chain_next (VStr prev) (event_dict e c prev) = Ok h ->
  c_status c = "ok" \/ c_status c = "error" ->
  write_fails e = false ->
  commit_fails e = true ->
  exists line,
    Orjson.dumps (VDict (model_dump (make_event e c prev h))) = Ok line
    /\ log_event cfg e c st
       = (Raise OperationalError,
          {| _last_hash_by_run := _last_hash_by_run st;
             durable := append_file (audit_path_of cfg (c_run_id c))
                                    (line ++ newline) (durable st) |})
    /\ pending (snd (log_event cfg e c st)) (c_run_id c) = prev.
Proof.
  intros Hres Hch Hst Hw Hc.
  pose proof (chain_next_encodable _ _ _ Hch) as Henc.
  destruct (dumps_encodable (VDict (model_dump (make_event e c prev h)))) as [line Hline].
  { rewrite model_dump_encodable. exact Henc. }
  assert (Hd : exists dj, Orjson.dumps (VDict (c_details c)) = Ok dj).
  { apply dumps_encodable. rewrite event_dict_encodable in Henc.
    apply andb_true_iff in Henc. exact (proj2 Henc). }
  destruct Hd as [dj Hdj].
  assert (Hv : validate (make_event e c prev h) = Ok (make_event e c prev h)).
  { unfold validate. cbn [status make_event].
    destruct Hst as [-> | ->]; reflexivity. }
  assert (Hlog : log_event cfg e c st
                 = (Raise OperationalError,
                    {| _last_hash_by_run := _last_hash_by_run st;
                       durable := append_file (audit_path_of cfg (c_run_id c))
                                              (line ++ newline) (durable st) |})).
  { unfold log_event. cbv zeta. rewrite Hres, Hch, Hv, Hw, Hline.
    unfold append_audit. cbn [details make_event].
    rewrite Hdj. cbn [bind]. rewrite Hc. reflexivity. }
  exists line. split; [exact Hline|]. split; [exact Hlog|].
  rewrite Hlog. cbn [snd]. symmetry.
  apply (resolve_pending e). cbn [_last_hash_by_run durable append_file audit_table].
  exact Hres.
Qed.

Lemma failed_commit_leaves_line_witness :
  let c := demo_call "r1" "s1" "ok" [] in
  let st := new_agent empty_world in
  _resolve_prev_hash failing_commit (_last_hash_by_run st) (durable st) (c_run_id c)
  = Ok EmptyString
  /\ is_ok (chain_next (VStr EmptyString) (event_dict failing_commit c EmptyString)) = true
  /\ fst (log_event demo_cfg failing_commit c st) = Raise OperationalError
  /\ pending (snd (log_event demo_cfg failing_commit c st)) "r1" = EmptyString.
Proof.
  intros c st.
  assert (Hres : _resolve_prev_hash failing_commit (_last_hash_by_run st) (durable st)
                                    (c_run_id c) = Ok EmptyString) by reflexivity.
  destruct (chain_next (VStr EmptyString) (event_dict failing_commit c EmptyString))
    as [h|] eqn:Hch; [|vm_compute in Hch; discriminate Hch].
  destruct (failed_commit_leaves_line demo_cfg failing_commit c st EmptyString h
              Hres Hch (or_introl eq_refl) eq_refl eq_refl)
    as (line & _ & Hlog & Hpend).
  split; [exact Hres|]. split; [reflexivity|].
  split; [rewrite Hlog; reflexivity | exact Hpend].
Defined.

(** * A line left behind by a failed commit *)








(** * cli_verify_audit.verify_chain: files cut at either end *)











(** * hashing.sha256_file: reading by chunks *)

Lemma read_octets_split n : forall s a b,
  read_octets n s = (a, b) -> s = (a ++ b)%string.
Proof.
  induction n as [| n IH]; intros s a b H.
  - injection H as <- <-. reflexivity.
  - destruct s as [| c r]; [injection H as <- <-; reflexivity|].
    cbn [read_octets] in H. destruct (read_octets n r) as [a' b'] eqn:E.
    injection H as <- <-. rewrite (IH r a' b' E). reflexivity.
Qed.

Lemma read_octets_empty n s b :
  read_octets n s = (EmptyString, b) -> n <> 0%nat -> s = EmptyString.
Proof.
  destruct n as [| n]; [congruence|]. intros H _.
  destruct s as [| c r]; [reflexivity|].
  cbn [read_octets] in H. destruct (read_octets n r). discriminate H.
Qed.

Lemma read_chunks_all size : size <> 0%nat ->
  forall rounds rest h,
    (String.length rest < rounds)%nat ->
    read_chunks rounds size rest h = Some (h ++ rest)%string.
Proof.
  intros Hsize. induction rounds as [| k IH]; intros rest h Hlen; [lia|].
  cbn [read_chunks]. destruct (read_octets size rest) as [chunk rest'] eqn:E.
  pose proof (read_octets_split _ _ _ _ E) as Hsplit.
  destruct (String.eqb_spec chunk EmptyString) as [-> | Hne].
  - rewrite (read_octets_empty _ _ _ E Hsize), sapp_nil_r. reflexivity.
  - rewrite IH.
    + rewrite Hsplit, sapp_assoc. reflexivity.
    + assert (Hl : String.length rest
                   = (String.length chunk + String.length rest')%nat)
        by (rewrite Hsplit; apply sapp_length).
      destruct chunk as [| c chunk]; [congruence|]. cbn [String.length] in Hl. lia.
Qed.

(** X8.  [sha256_file] returns the digest that [sha256_bytes] gives
    for the content of the file, whatever its length (the chunks of
    8192 octets are fed in order and the loop ends), and raises when
    there is no such file. *)
Theorem sha256_file_hashes_content w path :
  sha256_file w path
  = match files w !! path with
    | Some content => Ok (sha256_bytes content)
    | None => Raise OSError
    end.
Proof.
  unfold sha256_file. destruct (files w !! path) as [content|]; [|reflexivity].
  rewrite read_chunks_all; [rewrite sapp_nil_l; reflexivity | | lia].
  unfold chunk_size. lia.
Qed.

(** * storage: the jobs table *)

Lemma find_matches url h js j :
  List.find (job_matches url h) js = Some j ->
  In j js /\ job_url j = url /\ job_content_hash j = Some h.
Proof.
  intros H. apply List.find_some in H. destruct H as [Hin Hm].
  unfold job_matches in Hm. apply andb_true_iff in Hm. destruct Hm as [Hu Hh].
  apply String.eqb_eq in Hu.
  destruct (job_content_hash j) as [h'|]; [|discriminate Hh].
  apply String.eqb_eq in Hh. subst. auto.
Qed.

Lemma find_app_none {A} (f : A -> bool) l x :
  List.find f l = None -> List.find f (l ++ [x]) = if f x then Some x else None.
Proof.
  induction l as [| y l IH]; cbn [List.find app]; [reflexivity|].
  destruct (f y); [discriminate | exact IH].
Qed.

Lemma job_matches_self run_id url h i now :
  job_matches url h {| job_id := i; job_run_id := run_id; job_url := url;
                       job_content_hash := Some h; job_extracted_at := now |} = true.
Proof. unfold job_matches. cbn. rewrite !String.eqb_refl. reflexivity. Qed.

(** X9.  [upsert_job] is idempotent: once it has returned an id for a
    url and a content hash, a later call with the same url and hash
    (whatever its run id and time) returns the same id and leaves the
    tables as they are. *)
Theorem upsert_job_idempotent e1 r1 url h s i s1 e2 r2 :
  upsert_job e1 r1 url h s = Ok (i, s1) ->
  db_fails e2 = false ->
  upsert_job e2 r2 url h s1 = Ok (i, s1).
Proof.
  unfold upsert_job. intros H Hdb. rewrite Hdb.
  destruct (db_fails e1); [discriminate H|].
  destruct (List.find (job_matches url h) (jobs s)) as [j|] eqn:Hfind.
  - injection H as <- <-. rewrite Hfind. reflexivity.
  - injection H as <- <-. cbn [jobs].
    rewrite (find_app_none _ _ _ Hfind), job_matches_self. reflexivity.
Qed.

Lemma upsert_job_idempotent_witness :
  let e1 := demo_senv "2025-01-01T00:00:00+00:00" "u1" in
  let e2 := demo_senv "2025-01-02T00:00:00+00:00" "u2" in
  exists s1,
    upsert_job e1 "r1" "https://example.com/job" "abc" empty_store = Ok (1, s1)
    /\ upsert_job e2 "r2" "https://example.com/job" "abc" s1 = Ok (1, s1).
Proof.
  intros e1 e2.
  pose (s1 := match upsert_job e1 "r1" "https://example.com/job" "abc" empty_store with
              | Ok (_, s) => s
              | Raise _ => empty_store
              end).
  exists s1.
  assert (H : upsert_job e1 "r1" "https://example.com/job" "abc" empty_store
              = Ok (1, s1)) by reflexivity.
  split; [exact H|].
  exact (upsert_job_idempotent e1 "r1" _ _ _ _ _ e2 "r2" H eq_refl).
Defined.

Lemma fresh_id_above ids : Forall (fun i => i < fresh_id ids) ids.
Proof.
  unfold fresh_id. induction ids as [| i ids IH]; [apply List.Forall_nil|].
  cbn [fold_right]. apply List.Forall_cons; [lia|].
  eapply List.Forall_impl; [|exact IH]. cbn. intros j Hj. lia.
Qed.

Lemma ascending_ids_snoc ids i :
  ascending_ids ids -> Forall (fun j => j < i) ids -> ascending_ids (ids ++ [i]).
Proof.
  induction ids as [| j ids IH]; intros Ha Hb.
  - cbn. split; [apply List.Forall_nil | exact I].
  - cbn [ascending_ids app] in *. destruct Ha as [Hj Ha].
    apply List.Forall_cons_iff in Hb. destruct Hb as [Hji Hb].
    split; [|apply IH; assumption].
    apply List.Forall_app. split; [exact Hj|].
    apply List.Forall_cons; [exact Hji | apply List.Forall_nil].
Qed.

Lemma ascending_ids_nodup ids : ascending_ids ids -> List.NoDup ids.
Proof.
  induction ids as [| i ids IH]; intros H; [apply List.NoDup_nil|].
  destruct H as [Hi H]. apply List.NoDup_cons; [|apply IH; exact H].
  intros Hin. rewrite List.Forall_forall in Hi. specialize (Hi i Hin). lia.
Qed.

Lemma find_none_pair url h js :
  List.find (job_matches url h) js = None ->
  ~ In (url, Some h) (map (fun j => (job_url j, job_content_hash j)) js).
Proof.
  intros Hfind Hin. apply List.in_map_iff in Hin.
  destruct Hin as (j & Hj & Hin).
  pose proof (List.find_none _ _ Hfind j Hin) as Hm.
  injection Hj as Hu Hh. unfold job_matches in Hm.
  rewrite Hu, Hh, !String.eqb_refl in Hm. discriminate Hm.
Qed.

Lemma nodup_snoc {A} (l : list A) x :
  List.NoDup l -> ~ In x l -> List.NoDup (l ++ [x]).
Proof.
  intros Hl Hx. apply List.NoDup_app; [exact Hl | |].
  - apply List.NoDup_cons; [intros [] | apply List.NoDup_nil].
  - intros y Hy [<- | []]. exact (Hx Hy).
Qed.

(** What a call that returns leaves: a row with the id returned that
    holds the url and the hash, in a table that extends the old one
    and is well-formed if the old one was. *)
Lemma upsert_job_row e r url h s i s1 :
  upsert_job e r url h s = Ok (i, s1) ->
  (exists j, In j (jobs s1) /\ job_id j = i /\ job_url j = url
             /\ job_content_hash j = Some h)
  /\ (exists more, jobs s1 = jobs s ++ more)%list
  /\ (jobs_wf s -> jobs_wf s1).
Proof.
  unfold upsert_job. intros H. destruct (db_fails e); [discriminate H|].
  destruct (List.find (job_matches url h) (jobs s)) as [j|] eqn:Hfind.
  - injection H as <- <-. destruct (find_matches _ _ _ _ Hfind) as (Hin & Hu & Hh).
    split; [exists j; auto|]. split; [exists []; rewrite app_nil_r; reflexivity | auto].
  - injection H as <- <-. cbn [jobs]. split; [|split].
    + eexists. split; [apply List.in_or_app; right; left; reflexivity|].
      cbn. auto.
    + eexists. reflexivity.
    + intros [Hnd Hasc]. unfold jobs_wf. cbn [jobs]. split.
      * rewrite List.map_app. cbn [map job_url job_content_hash].
        apply nodup_snoc; [exact Hnd | apply find_none_pair; exact Hfind].
      * rewrite List.map_app. cbn [map job_id].
        apply ascending_ids_snoc; [exact Hasc | apply fresh_id_above].
Qed.

Lemma same_id_same_row (js : list Job) a b :
  ascending_ids (map job_id js) -> In a js -> In b js -> job_id a = job_id b -> a = b.
Proof.
  intros Hasc. apply ascending_ids_nodup in Hasc.
  induction js as [| j js IH]; intros Ha Hb Hid; [destruct Ha|].
  cbn [map] in Hasc. apply List.NoDup_cons_iff in Hasc. destruct Hasc as [Hj Hnd].
  destruct Ha as [<- | Ha], Hb as [<- | Hb].
  - reflexivity.
  - exfalso. apply Hj. rewrite Hid. apply List.in_map. exact Hb.
  - exfalso. apply Hj. rewrite <- Hid. apply List.in_map. exact Ha.
  - apply IH; assumption.
Qed.

(** X10.  Job ids stand for pairs of url and content hash.  Over a jobs
    table in which no pair occurs twice and the ids grow (the empty
    table is such, and [upsert_job] keeps it so), two calls of
    [upsert_job] return the same id exactly when they are given the
    same url and the same content hash. *)
Theorem upsert_job_ids_identify e1 r1 u1 h1 s i1 s1 e2 r2 u2 h2 i2 s2 :
  jobs_wf s ->
  upsert_job e1 r1 u1 h1 s = Ok (i1, s1) ->
  upsert_job e2 r2 u2 h2 s1 = Ok (i2, s2) ->
  jobs_wf s2 /\ (i1 = i2 <-> u1 = u2 /\ h1 = h2).
Proof.
  intros Hwf H1 H2.
  destruct (upsert_job_row _ _ _ _ _ _ _ H1) as ((j1 & Hin1 & Hid1 & Hu1 & Hh1) & _ & Hwf1).
  destruct (upsert_job_row _ _ _ _ _ _ _ H2)
    as ((j2 & Hin2 & Hid2 & Hu2 & Hh2) & (more & Hmore) & Hwf2).
  specialize (Hwf2 (Hwf1 Hwf)). split; [exact Hwf2|]. split.
  - intros Hi. subst i1 i2.
    assert (Hin1' : In j1 (jobs s2)) by (rewrite Hmore; apply List.in_or_app; auto).
    pose proof (same_id_same_row _ j1 j2 (proj2 Hwf2) Hin1' Hin2 Hi) as E.
    subst j2. split; congruence.
  - intros [-> ->].
    assert (Hdb : db_fails e2 = false).
    { unfold upsert_job in H2. destruct (db_fails e2); [discriminate H2 | reflexivity]. }
    rewrite (upsert_job_idempotent _ _ _ _ _ _ _ e2 r2 H1 Hdb) in H2.
    congruence.
Qed.

Lemma upsert_job_ids_identify_witness :
  let e := demo_senv "2025-01-01T00:00:00+00:00" "u1" in
  exists s1 s2,
    jobs_wf empty_store
    /\ upsert_job e "r1" "https://example.com/a" "abc" empty_store = Ok (1, s1)
    /\ upsert_job e "r2" "https://example.com/a" "abd" s1 = Ok (2, s2)
    /\ jobs_wf s2
    /\ (1 = 2 <-> "https://example.com/a" = "https://example.com/a" /\ "abc" = "abd").
Proof.
  intros e.
  pose (s1 := match upsert_job e "r1" "https://example.com/a" "abc" empty_store with
              | Ok (_, s) => s
              | Raise _ => empty_store
              end).
  pose (s2 := match upsert_job e "r2" "https://example.com/a" "abd" s1 with
              | Ok (_, s) => s
              | Raise _ => empty_store
              end).
  exists s1, s2.
  assert (Hwf : jobs_wf empty_store).
  { split; [apply List.NoDup_nil | exact I]. }
  assert (H1 : upsert_job e "r1" "https://example.com/a" "abc" empty_store = Ok (1, s1))
    by reflexivity.
  assert (H2 : upsert_job e "r2" "https://example.com/a" "abd" s1 = Ok (2, s2))
    by reflexivity.
  split; [exact Hwf|]. split; [exact H1|]. split; [exact H2|].
  exact (upsert_job_ids_identify e "r1" _ _ _ _ _ e "r2" _ _ _ _ Hwf H1 H2).
Defined.

(** * storage: artifacts and runs *)

Lemma ascending_ids_filter (f : Artifact -> bool) l :
  ascending_ids (map art_id l) -> ascending_ids (map art_id (List.filter f l)).
Proof.
  induction l as [| a l IH]; intros H; [exact I|].
  cbn [map ascending_ids] in H. destruct H as [Ha H].
  cbn [List.filter]. destruct (f a); [|apply IH; exact H].
  cbn [map ascending_ids]. split; [|apply IH; exact H].
  rewrite List.Forall_forall in Ha |- *. intros i Hi.
  apply Ha. apply List.in_map_iff in Hi. destruct Hi as (b & <- & Hb).
  apply List.filter_In in Hb. apply List.in_map. exact (proj1 Hb).
Qed.

(** Rows whose ids grow are in the order of their ids already. *)
Lemma order_by_id_ascending l :
  ascending_ids (map art_id l) -> order_by_id l = l.
Proof.
  induction l as [| a l IH]; intros H; [reflexivity|].
  cbn [map ascending_ids] in H. destruct H as [Ha H].
  unfold order_by_id. cbn [fold_right]. fold (order_by_id l). rewrite (IH H).
  destruct l as [| b l]; [reflexivity|].
  cbn [insert_by_id]. cbn [map] in Ha.
  apply List.Forall_cons_iff in Ha. destruct Ha as [Hab _].
  destruct (Z.leb_spec (art_id a) (art_id b)); [reflexivity | lia].
Qed.

Lemma filter_snoc {A} (f : A -> bool) l x :
  List.filter f (l ++ [x]) = (List.filter f l ++ if f x then [x] else [])%list.
Proof. rewrite List.filter_app. reflexivity. Qed.

(** X11.  An artifact persisted is listed.  Over a table whose ids grow
    (the empty table is such, and [persist_artifact] keeps it so), for
    a file that exists and a store that answers, [persist_artifact]
    returns a dict whose sha256 is the digest of the file's content;
    afterwards [get_artifacts_for_run] of the run returns the dicts it
    returned before followed by this one, [get_artifact_count] is one
    more, and the lists of the other runs are as before. *)
Theorem persist_artifact_listed e w rid kind path content s e' :
  ascending_ids (map art_id (artifacts s)) ->
  files w !! path = Some content ->
  db_fails e = false -> db_fails e' = false ->
  exists d s' l n,
    persist_artifact e w rid kind path s = Ok (d, s')
    /\ dict_get "sha256" d = Some (VStr (sha256_bytes content))
    /\ dict_get "path" d = Some (VStr (path_str path))
    /\ get_artifacts_for_run e' rid s = Ok l
    /\ get_artifacts_for_run e' rid s' = Ok (l ++ [d])%list
    /\ get_artifact_count e' rid s = Ok n
    /\ get_artifact_count e' rid s' = Ok (n + 1)
    /\ (forall other, other <> rid ->
          get_artifacts_for_run e' other s' = get_artifacts_for_run e' other s)
    /\ ascending_ids (map art_id (artifacts s')).
Proof.
  intros Hasc Hfile Hdb Hdb'.
  set (art := {| art_id := fresh_id (map art_id (artifacts s));
                 art_run_id := rid; art_kind := kind; art_path := path_str path;
                 art_sha256 := sha256_bytes content;
                 art_created_at := utc_now_iso e |}).
  set (s' := {| runs := runs s; artifacts := artifacts s ++ [art]; jobs := jobs s |}).
  set (mine := fun a => String.eqb (art_run_id a) rid).
  assert (Hasc' : ascending_ids (map art_id (artifacts s'))).
  { cbn [artifacts s']. rewrite List.map_app. cbn [map].
    apply ascending_ids_snoc; [exact Hasc | apply fresh_id_above]. }
  exists (artifact_dict art), s',
         (map artifact_dict (List.filter mine (artifacts s))),
         (Z.of_nat (length (List.filter mine (artifacts s)))).
  split; [|split; [reflexivity|]; split; [reflexivity|]; split; [|split; [|split; [|split; [|split]]]]].
  - unfold persist_artifact, sha256_file. rewrite Hfile.
    rewrite read_chunks_all by (unfold chunk_size; lia).
    rewrite sapp_nil_l. cbn [bind]. rewrite Hdb. reflexivity.
  - unfold get_artifacts_for_run. rewrite Hdb'.
    rewrite order_by_id_ascending by (apply ascending_ids_filter; exact Hasc).
    reflexivity.
  - unfold get_artifacts_for_run. rewrite Hdb'.
    rewrite order_by_id_ascending by (apply ascending_ids_filter; exact Hasc').
    cbn [artifacts s']. fold mine. rewrite filter_snoc.
    unfold mine at 2. cbn [art_run_id art]. rewrite String.eqb_refl.
    rewrite List.map_app. reflexivity.
  - unfold get_artifact_count. rewrite Hdb'. reflexivity.
  - unfold get_artifact_count. rewrite Hdb'.
    cbn [artifacts s']. fold mine. rewrite filter_snoc.
    unfold mine at 2. cbn [art_run_id art]. rewrite String.eqb_refl.
    rewrite length_app. cbn [length]. f_equal. lia.
  - intros other Hne. unfold get_artifacts_for_run. rewrite Hdb'.
    cbn [artifacts s']. rewrite filter_snoc. cbn [art_run_id art].
    apply not_eq_sym in Hne. apply String.eqb_neq in Hne. rewrite Hne, app_nil_r.
    reflexivity.
  - exact Hasc'.
Qed.

Lemma persist_artifact_listed_witness :
  let w := {| audit_table := []; files := {[ ["/"; "tmp"; "dummy.txt"] := "hello world" ]} |} in
  let e := demo_senv "2025-01-01T00:00:00+00:00" "u1" in
  exists d s',
    persist_artifact e w "r1" "text" ["/"; "tmp"; "dummy.txt"] empty_store = Ok (d, s')
    /\ dict_get "path" d = Some (VStr "/tmp/dummy.txt")
    /\ get_artifacts_for_run e "r1" s' = Ok [d]
    /\ get_artifact_count e "r1" s' = Ok 1.
Proof.
  intros w e.
  destruct (persist_artifact_listed e w "r1" "text" ["/"; "tmp"; "dummy.txt"]
              "hello world" empty_store e I eq_refl eq_refl eq_refl)
    as (d & s' & l & n & Hp & _ & Hpath & Hl & Hl' & Hn & Hn' & _).
  exists d, s'. split; [exact Hp|]. split; [exact Hpath|].
  injection Hl as <-. injection Hn as <-.
  split; [exact Hl' | exact Hn'].
Defined.

(** X12.  The life of a run.  After [create_run] the run is read back
    as running, without an end.  [finish_run] sets the end, the status
    and the message and keeps the url and the start; a second
    [finish_run] overrides the first (as when the navigator marks a
    run auth_required and then error); the rows of other runs stay as
    they were. *)
Theorem run_lifecycle e url s rid s1 e2 status msg e3 status' msg' e4 :
  create_run e url s = Ok (rid, s1) ->
  db_fails e2 = false -> db_fails e3 = false -> db_fails e4 = false ->
  get_run e4 rid s1
  = Ok (Some [("run_id", VStr rid); ("url", VStr url);
              ("started_at", VStr (utc_now_iso e)); ("finished_at", VNone);
              ("status", VStr "running"); ("error_message", VNone)])
  /\ exists s2 s3,
       finish_run e2 rid status msg s1 = Ok s2
       /\ get_run e4 rid s2
          = Ok (Some [("run_id", VStr rid); ("url", VStr url);
                      ("started_at", VStr (utc_now_iso e));
                      ("finished_at", VStr (utc_now_iso e2));
                      ("status", VStr status); ("error_message", opt_str msg)])
       /\ finish_run e3 rid status' msg' s2 = Ok s3
       /\ get_run e4 rid s3
          = Ok (Some [("run_id", VStr rid); ("url", VStr url);
                      ("started_at", VStr (utc_now_iso e));
                      ("finished_at", VStr (utc_now_iso e3));
                      ("status", VStr status'); ("error_message", opt_str msg')])
       /\ (forall other, other <> rid ->
             get_run e4 other s3 = get_run e4 other s).
Proof.
  unfold create_run. intros H Hdb2 Hdb3 Hdb4.
  destruct (db_fails e); [discriminate H|].
  destruct (runs s !! uuid4 e) eqn:Hfree; [discriminate H|].
  injection H as <- <-. split.
  - unfold get_run. rewrite Hdb4. cbn [runs]. rewrite lookup_insert_eq. reflexivity.
  - unfold finish_run. rewrite Hdb2, Hdb3. eexists. eexists.
    split; [reflexivity|]. split; [|split; [reflexivity|]; split].
    + unfold get_run. rewrite Hdb4. cbn [runs].
      rewrite lookup_alter_eq, lookup_insert_eq. reflexivity.
    + unfold get_run. rewrite Hdb4. cbn [runs].
      rewrite !lookup_alter_eq, lookup_insert_eq. reflexivity.
    + intros other Hne. unfold get_run. rewrite Hdb4. cbn [runs].
      rewrite !lookup_alter_ne, lookup_insert_ne by congruence. reflexivity.
Qed.

Lemma run_lifecycle_witness :
  let e := demo_senv "2025-01-01T00:00:00+00:00" "6f1c" in
  let e2 := demo_senv "2025-01-01T00:00:05+00:00" "" in
  exists s1 s2,
    create_run e "https://example.com/job2" empty_store = Ok ("6f1c", s1)
    /\ finish_run e2 "6f1c" "ok" None s1 = Ok s2
    /\ get_run e2 "6f1c" s2
       = Ok (Some [("run_id", VStr "6f1c"); ("url", VStr "https://example.com/job2");
                   ("started_at", VStr "2025-01-01T00:00:00+00:00");
                   ("finished_at", VStr "2025-01-01T00:00:05+00:00");
                   ("status", VStr "ok"); ("error_message", VNone)]).
Proof.
  intros e e2.
  pose (s1 := match create_run e "https://example.com/job2" empty_store with
              | Ok (_, s) => s
              | Raise _ => empty_store
              end).
  assert (H : create_run e "https://example.com/job2" empty_store = Ok ("6f1c", s1))
    by reflexivity.
  destruct (run_lifecycle e _ _ _ _ e2 "ok" None e2 "ok" None e2 H eq_refl eq_refl eq_refl)
    as (_ & s2 & s3 & Hf & Hg & _).
  exists s1, s2. split; [exact H|]. split; [exact Hf | exact Hg].
Defined.

(** X13.  [finish_run] for a run id that has no row raises nothing and
    changes nothing: no row is made, and the run is still unknown. *)
Theorem finish_unknown_run e rid status msg s e' :
  runs s !! rid = None ->
  db_fails e = false -> db_fails e' = false ->
  exists s',
    finish_run e rid status msg s = Ok s'
    /\ runs s' = runs s
    /\ get_run e' rid s' = Ok None.
Proof.
  intros Hnone Hdb Hdb'. unfold finish_run. rewrite Hdb. eexists.
  split; [reflexivity|]. cbn [runs].
  assert (E : alter (fun r => {| runs_run_id := runs_run_id r; runs_url := runs_url r;
                                 runs_started_at := runs_started_at r;
                                 runs_finished_at := Some (utc_now_iso e);
                                 runs_status := status;
                                 runs_error_message := msg |}) rid (runs s) = runs s).
  { apply map_eq. intros k. destruct (decide (k = rid)) as [-> | Hne].
    - rewrite lookup_alter_eq, Hnone. reflexivity.
    - rewrite lookup_alter_ne by congruence. reflexivity. }
  split; [exact E|]. unfold get_run. rewrite Hdb'. cbn [runs].
  rewrite E, Hnone. reflexivity.
Qed.

Lemma finish_unknown_run_witness :
  let e := demo_senv "2025-01-01T00:00:05+00:00" "" in
  exists s',
    finish_run e "nope" "error" (Some "boom") empty_store = Ok s'
    /\ runs s' = runs empty_store
    /\ get_run e "nope" s' = Ok None.
Proof.
  intros e.
  exact (finish_unknown_run e "nope" "error" (Some "boom") empty_store e
           eq_refl eq_refl eq_refl).
Defined.

(** * cli_verify_audit.main: the exit code and the line printed *)

Lemma push_length c ls : ls <> [] -> length (Text.push c ls) = length ls.
Proof. destruct ls; [congruence | reflexivity]. Qed.












(** * Logging a run, then verifying it from the command line *)






(** * settings.artifacts_dir_for: run ids of one component *)

Lemma split_slash_plain rid :
  has_slash rid = false -> Pathlib.split_slash rid = [rid].
Proof.
  induction rid as [| c r IH]; [reflexivity|].
  cbn [has_slash Pathlib.split_slash]. intros H.
  apply orb_false_iff in H. destruct H as [Hc Hr].
  rewrite Hc, (IH Hr). reflexivity.
Qed.

Lemma parts_plain rid : plain_id rid = true -> Pathlib.parts rid = [rid].
Proof.
  unfold plain_id. intros H.
  apply andb_true_iff in H. destruct H as [H Hs].
  apply negb_true_iff in Hs.
  unfold Pathlib.parts. rewrite (split_slash_plain rid Hs).
  cbn [List.filter]. unfold Pathlib.kept. rewrite H.
  destruct rid as [| c r]; [reflexivity|].
  cbn [has_slash] in Hs. apply orb_false_iff in Hs. rewrite (proj1 Hs). reflexivity.
Qed.

Lemma joinpath_plain p rid :
  plain_id rid = true -> Pathlib.joinpath p rid = (p ++ [rid])%list.
Proof.
  intros H. unfold Pathlib.joinpath. rewrite (parts_plain rid H).
  cbn [Pathlib.is_absolute].
  destruct (String.eqb_spec rid "/") as [-> | _]; [discriminate H | reflexivity].
Qed.

Lemma audit_path_plain cfg rid :
  plain_id rid = true ->
  exists base,
    artifacts_dir_for cfg rid = (base ++ [rid])%list
    /\ audit_path_of cfg rid = (base ++ [rid; "audit.jsonl"])%list
    /\ forall other, plain_id other = true ->
         artifacts_dir_for cfg other = (base ++ [other])%list
         /\ audit_path_of cfg other = (base ++ [other; "audit.jsonl"])%list.
Proof.
  intros H. unfold audit_path_of, artifacts_dir_for.
  set (base := if Pathlib.is_absolute (Pathlib.parts (artifacts_base_dir cfg))
               then Pathlib.parts (artifacts_base_dir cfg)
               else Pathlib.joinpath (project_root cfg) (artifacts_base_dir cfg)).
  exists base.
  assert (Hall : forall r, plain_id r = true ->
            Pathlib.joinpath base r = (base ++ [r])%list
            /\ Pathlib.joinpath (Pathlib.joinpath base r) "audit.jsonl"
               = (base ++ [r; "audit.jsonl"])%list).
  { intros r Hr. rewrite (joinpath_plain base r Hr). split; [reflexivity|].
    rewrite (joinpath_plain _ "audit.jsonl" eq_refl), <- List.app_assoc. reflexivity. }
  destruct (Hall rid H) as [H1 H2]. split; [exact H1|]. split; [exact H2 | exact Hall].
Qed.

(** X16.  Run ids that are a single path component (not empty, not a
    dot, without a slash) get directories and audit files of their
    own: two such ids with the same directory, or the same audit file,
    are the same id.  A session all of whose run ids are such meets
    the condition under which the file of one run does not depend on
    the calls for the others. *)
Theorem plain_ids_own_files cfg a :
  plain_id a = true ->
  (forall b, plain_id b = true ->
     (artifacts_dir_for cfg a = artifacts_dir_for cfg b -> a = b)
     /\ (audit_path_of cfg a = audit_path_of cfg b -> a = b))
  /\ (forall cs, Forall (fun ec => plain_id (c_run_id (snd ec)) = true) cs ->
                 own_file cfg a cs).
Proof.
  intros Ha. destruct (audit_path_plain cfg a Ha) as (base & Hda & Hpa & Hother).
  assert (Hinj : forall b, plain_id b = true ->
            (artifacts_dir_for cfg a = artifacts_dir_for cfg b -> a = b)
            /\ (audit_path_of cfg a = audit_path_of cfg b -> a = b)).
  { intros b Hb. destruct (Hother b Hb) as [Hdb Hpb]. rewrite Hda, Hpa, Hdb, Hpb.
    split; intros E; apply List.app_inv_head in E; congruence. }
  split; [exact Hinj|].
  intros cs Hcs. unfold own_file.
  eapply List.Forall_impl; [|exact Hcs]. cbn beta. intros ec Hec.
  destruct (String.eqb_spec (c_run_id (snd ec)) a) as [E | Hne]; [left; exact E|].
  right. intros E. apply Hne. symmetry.
  exact (proj2 (Hinj _ Hec) (eq_sym E)).
Qed.

Lemma plain_ids_own_files_witness :
  plain_id "r1" = true
  /\ Forall (fun ec => plain_id (c_run_id (snd ec)) = true) interleaved_calls
  /\ own_file demo_cfg "r1" interleaved_calls.
Proof.
  assert (Hcs : Forall (fun ec => plain_id (c_run_id (snd ec)) = true) interleaved_calls).
  { unfold interleaved_calls.
    repeat (apply List.Forall_cons; [reflexivity|]). apply List.Forall_nil. }
  split; [reflexivity|]. split; [exact Hcs|].
  exact (proj2 (plain_ids_own_files demo_cfg "r1" eq_refl) interleaved_calls Hcs).
Defined.

(** * normalize: white space and the content hash *)

(** No white space at the end. *)
Lemma rstrip_keeps_head c r :
  isspace c = false -> exists kept, rstrip (c :: r) = c :: kept.
Proof.
  intros Hc. cbn [rstrip]. destruct (rstrip r) as [| k ks].
  - rewrite Hc. exists []. reflexivity.
  - exists (k :: ks). reflexivity.
Qed.

Lemma lstrip_head s :
  match lstrip s with
  | [] => True
  | c :: _ => isspace c = false
  end.
Proof.
  induction s as [| c r IH]; [exact I|]. cbn [lstrip].
  destruct (isspace c) eqn:Hc; [exact IH | exact Hc].
Qed.

Lemma strip_head s :
  match strip s with
  | [] => True
  | c :: _ => isspace c = false
  end.
Proof.
  unfold strip. pose proof (lstrip_head s) as H.
  destruct (lstrip s) as [| c r]; [exact I|].
  destruct (rstrip_keeps_head c r H) as [kept ->]. exact H.
Qed.

(** The last character, if any, is not white space. *)
Lemma rstrip_last s :
  match rev (rstrip s) with
  | [] => True
  | c :: _ => isspace c = false
  end.
Proof.
  induction s as [| c r IH]; [exact I|]. cbn [rstrip].
  destruct (rstrip r) as [| k ks].
  - destruct (isspace c) eqn:Hc; [exact I | exact Hc].
  - change (rev (c :: k :: ks)) with (rev (k :: ks) ++ [c])%list.
    destruct (rev (k :: ks)) as [| l ls] eqn:E; [|exact IH].
    apply (f_equal (@length N)) in E. rewrite length_rev in E. discriminate E.
Qed.

Lemma sub_spaces_head c r :
  isspace c = false -> sub_spaces (c :: r) = c :: sub_spaces r.
Proof. intros H. cbn [sub_spaces]. rewrite H. reflexivity. Qed.

Lemma sub_spaces_space c c2 r :
  isspace c = true ->
  sub_spaces (c :: c2 :: r)
  = if isspace c2 then sub_spaces (c2 :: r) else 32%N :: sub_spaces (c2 :: r).
Proof.
  intros H.
  change (sub_spaces (c :: c2 :: r))
    with (if isspace c
          then (if isspace c2 then sub_spaces (c2 :: r) else 32%N :: sub_spaces (c2 :: r))
          else c :: sub_spaces (c2 :: r)).
  rewrite H. reflexivity.
Qed.

(** Replacing the runs of a str that does not end in white space
    leaves single spaces, each before a character that is none. *)
Lemma sub_spaces_spaced s :
  match rev s with [] => True | c :: _ => isspace c = false end ->
  spaced (sub_spaces s) = true.
Proof.
  induction s as [| c r IH]; intros Hlast; [reflexivity|].
  assert (Hr : r <> [] ->
               match rev r with [] => True | c :: _ => isspace c = false end).
  { intros Hne. cbn [rev] in Hlast.
    destruct (rev r) as [| l ls] eqn:E; [|exact Hlast].
    apply (f_equal (@length N)) in E. rewrite length_rev in E.
    destruct r; [congruence | discriminate E]. }
  destruct (isspace c) eqn:Hc.
  - destruct r as [| c2 r'].
    + cbn [rev app] in Hlast. congruence.
    + specialize (IH (Hr ltac:(discriminate))).
      rewrite (sub_spaces_space c c2 r' Hc).
      destruct (isspace c2) eqn:Hc2; [exact IH|].
      rewrite (sub_spaces_head c2 r' Hc2) in IH |- *.
      cbn [spaced] in IH |- *. rewrite Hc2 in IH |- *. exact IH.
  - rewrite (sub_spaces_head c r Hc). cbn [spaced]. rewrite Hc. cbn [andb].
    destruct r as [| c2 r']; [reflexivity|]. apply IH, Hr. discriminate.
Qed.

Lemma normalize_ws_form s : normalized (normalize_ws s) = true.
Proof.
  unfold normalized, normalize_ws. apply andb_true_iff. split.
  - apply sub_spaces_spaced. apply rstrip_last.
  - pose proof (strip_head (or_empty s)) as H.
    destruct (strip (or_empty s)) as [| c r]; [reflexivity|].
    rewrite (sub_spaces_head c r H), H. reflexivity.
Qed.

Lemma spaced_rstrip s : spaced s = true -> rstrip s = s.
Proof.
  induction s as [| c r IH]; [reflexivity|]. cbn [spaced]. intros H.
  apply andb_true_iff in H. destruct H as [Hc Hr].
  cbn [rstrip]. rewrite (IH Hr).
  destruct r as [| c2 r']; [|reflexivity].
  destruct (isspace c); [|reflexivity].
  rewrite andb_false_r in Hc. discriminate Hc.
Qed.

Lemma spaced_sub_spaces s : spaced s = true -> sub_spaces s = s.
Proof.
  induction s as [| c r IH]; [reflexivity|]. cbn [spaced]. intros H.
  apply andb_true_iff in H. destruct H as [Hc Hr].
  destruct (isspace c) eqn:Hsp; [|rewrite (sub_spaces_head c r Hsp), (IH Hr); reflexivity].
  apply andb_true_iff in Hc. destruct Hc as [H32 Hnext].
  apply N.eqb_eq in H32. subst c.
  destruct r as [| c2 r']; [discriminate Hnext|].
  apply negb_true_iff in Hnext.
  rewrite (sub_spaces_space _ c2 r' Hsp), Hnext, (IH Hr). reflexivity.
Qed.

Lemma normalized_fixed s : normalized s = true -> normalize_ws (Some s) = s.
Proof.
  unfold normalized, normalize_ws, strip. change (or_empty (Some s)) with s. intros H.
  apply andb_true_iff in H. destruct H as [Hs Hh].
  assert (Hl : lstrip s = s).
  { destruct s as [| c r]; [reflexivity|]. cbn [lstrip].
    apply negb_true_iff in Hh. rewrite Hh. reflexivity. }
  rewrite Hl, (spaced_rstrip s Hs). apply spaced_sub_spaces. exact Hs.
Qed.

(** X17.  [normalize_ws] gives a normal form: in its result every white
    space character is a single U+0020 between two characters that are
    not white space (so the result holds no line break and no white
    space at either end); a str of this form is returned as it is, and
    so normalizing twice is normalizing once.  None and the empty str
    give the empty str. *)
Theorem normalize_ws_normal_form s :
  normalized (normalize_ws s) = true
  /\ (forall t, normalized t = true -> normalize_ws (Some t) = t)
  /\ normalize_ws (Some (normalize_ws s)) = normalize_ws s
  /\ normalize_ws None = [] /\ normalize_ws (Some []) = [].
Proof.
  split; [apply normalize_ws_form|]. split; [exact normalized_fixed|].
  split; [apply normalized_fixed, normalize_ws_form|]. split; reflexivity.
Qed.

Lemma spaced_no_newline s : spaced s = true -> ~ In 10%N s.
Proof.
  induction s as [| c r IH]; [intros _ []|]. cbn [spaced]. intros H.
  apply andb_true_iff in H. destruct H as [Hc Hr].
  intros [-> | Hin]; [|exact (IH Hr Hin)].
  discriminate Hc.
Qed.

Lemma cut_at_newline (a a' x x' : ustr) :
  ~ In 10%N a -> ~ In 10%N a' ->
  (a ++ 10%N :: x = a' ++ 10%N :: x')%list -> a = a' /\ x = x'.
Proof.
  revert a'. induction a as [| c a IH]; intros [| c' a'] Ha Ha' E.
  - injection E as <-. auto.
  - injection E as <- _. exfalso. apply Ha'. left. reflexivity.
  - injection E as -> _. exfalso. apply Ha. left. reflexivity.
  - injection E as <- E.
    destruct (IH a') as [-> ->]; [| |exact E|auto].
    + intros H. apply Ha. right. exact H.
    + intros H. apply Ha'. right. exact H.
Qed.

Lemma normalize_ws_no_newline s : ~ In 10%N (normalize_ws s).
Proof.
  apply spaced_no_newline.
  pose proof (normalize_ws_form s) as H. unfold normalized in H.
  apply andb_true_iff in H. exact (proj1 H).
Qed.

(** X18.  The text that [compute_content_hash] hashes determines the
    four normalized fields: the fields are joined by line feeds and
    hold none after normalization, so two quadruples of fields give
    the same [joined] text only if their normalized fields are the
    same, one by one.  (No text moves from one field into the next.) *)
Theorem joined_determines_fields t c l d t' c' l' d' :
  joined t c l d = joined t' c' l' d' ->
  normalize_ws t = normalize_ws t' /\ normalize_ws c = normalize_ws c'
  /\ normalize_ws l = normalize_ws l' /\ normalize_ws d = normalize_ws d'.
Proof.
  unfold joined. cbn [join app]. intros E.
  apply cut_at_newline in E; try apply normalize_ws_no_newline.
  destruct E as [Ht E]. split; [exact Ht|].
  apply cut_at_newline in E; try apply normalize_ws_no_newline.
  destruct E as [Hc E]. split; [exact Hc|].
  apply cut_at_newline in E; try apply normalize_ws_no_newline.
  exact E.
Qed.

Lemma joined_determines_fields_witness :
  let t := Some (ascii_str "  Senior   Engineer ") in
  let t' := Some (ascii_str "Senior Engineer") in
  let c := Some (ascii_str "Acme") in
  let l := Some (ascii_str "Berlin , DE") in
  let d := None in
  joined t c l d = joined t' c l d
  /\ normalize_ws t = normalize_ws t'.
Proof.
  intros t t' c l d.
  assert (E : joined t c l d = joined t' c l d) by (vm_compute; reflexivity).
  split; [exact E|].
  exact (proj1 (joined_determines_fields t c l d t' c l d E)).
Defined.

(** X19.  [compute_content_hash] does not see white space that
    [normalize_ws] removes: the fields and their normalized forms have
    the same content hash (or both have a surrogate that cannot be
    encoded).  This is what [normalize_fields] relies on when it
    passes fields it has normalized already. *)
Theorem compute_content_hash_normalized t c l d :
  compute_content_hash (Some (normalize_ws t)) (Some (normalize_ws c))
                       (Some (normalize_ws l)) (Some (normalize_ws d))
  = compute_content_hash t c l d.
Proof.
  unfold compute_content_hash, joined.
  rewrite !(normalized_fixed _ (normalize_ws_form _)). reflexivity.
Qed.

(** * normalize.tidy_location *)

Lemma sub_commas_comma after held r :
  sub_commas after held (44%N :: r) = 44%N :: 32%N :: sub_commas true [] r.
Proof. reflexivity. Qed.

Lemma sub_commas_other after held c r :
  (c =? 44)%N = false -> isspace c = false ->
  sub_commas after held (c :: r) = (held ++ c :: sub_commas false [] r)%list.
Proof. intros H1 H2. cbn [sub_commas]. rewrite H1, H2. reflexivity. Qed.

Lemma sub_commas_space_after held c r :
  isspace c = true -> sub_commas true held (c :: r) = sub_commas true [] r.
Proof.
  intros H. cbn [sub_commas].
  destruct (c =? 44)%N eqn:E; [apply N.eqb_eq in E; subst c; discriminate H|].
  rewrite H. reflexivity.
Qed.

Lemma sub_commas_space held c r :
  isspace c = true ->
  sub_commas false held (c :: r) = sub_commas false (held ++ [c])%list r.
Proof.
  intros H. cbn [sub_commas].
  destruct (c =? 44)%N eqn:E; [apply N.eqb_eq in E; subst c; discriminate H|].
  rewrite H. reflexivity.
Qed.

Lemma comma_form_comma after r :
  comma_form after (44%N :: 32%N :: r) = comma_form true r.
Proof. reflexivity. Qed.

Lemma comma_form_other after c r :
  (c =? 44)%N = false -> isspace c = false ->
  comma_form after (c :: r) = comma_form false r.
Proof. intros H1 H2. cbn [comma_form]. rewrite H1, H2. reflexivity. Qed.

Lemma comma_form_space c x :
  isspace c = false -> (c =? 44)%N = false ->
  comma_form false (32%N :: c :: x) = comma_form false (c :: x).
Proof.
  intros H1 H2.
  change (comma_form false (32%N :: c :: x))
    with ((32 =? 32)%N && negb false && (negb (isspace c) && negb (c =? 44)%N)
          && comma_form false (c :: x)).
  rewrite H1, H2. reflexivity.
Qed.

(** What [sub_commas] makes of a normalized str is in comma form. *)
Lemma sub_commas_form n : forall s,
  (length s <= n)%nat -> spaced s = true ->
  comma_form true (sub_commas true [] s) = true
  /\ (match s with c :: _ => isspace c = false | [] => True end ->
      comma_form false (sub_commas false [] s) = true).
Proof.
  induction n as [| n IH]; intros s Hlen Hs.
  - destruct s; [split; reflexivity | cbn [length] in Hlen; lia].
  - destruct s as [| c r]; [split; reflexivity|].
    cbn [length] in Hlen. cbn [spaced] in Hs.
    apply andb_true_iff in Hs. destruct Hs as [Hc Hr].
    destruct (IH r ltac:(lia) Hr) as [IHa IHb].
    destruct (c =? 44)%N eqn:E44.
    { apply N.eqb_eq in E44. subst c.
      rewrite !sub_commas_comma, !comma_form_comma. split; [exact IHa | intros _; exact IHa]. }
    destruct (isspace c) eqn:Hsp.
    + split; [|discriminate].
      rewrite (sub_commas_space_after _ c r Hsp). exact IHa.
    + rewrite !(sub_commas_other _ _ c r E44 Hsp). cbn [app].
      rewrite !(comma_form_other _ c _ E44 Hsp).
      assert (Hgoal : comma_form false (sub_commas false [] r) = true).
      { destruct r as [| c2 r2]; [reflexivity|].
        destruct (isspace c2) eqn:Hsp2; [|apply IHb; reflexivity].
        (* a single space, then a character that is none *)
        cbn [spaced] in Hr. rewrite Hsp2 in Hr.
        apply andb_true_iff in Hr. destruct Hr as [H32 Hr2].
        apply andb_true_iff in H32. destruct H32 as [H32 Hnext].
        apply N.eqb_eq in H32. subst c2.
        destruct r2 as [| c3 r3]; [discriminate Hnext|].
        apply negb_true_iff in Hnext.
        cbn [length] in Hlen.
        destruct (IH (c3 :: r3) ltac:(cbn [length]; lia) Hr2) as [_ IHc].
        specialize (IHc Hnext).
        rewrite (sub_commas_space [] 32%N _ Hsp2). cbn [app].
        destruct (c3 =? 44)%N eqn:E3.
        - apply N.eqb_eq in E3. subst c3.
          rewrite sub_commas_comma in IHc |- *. exact IHc.
        - rewrite (sub_commas_other false [] c3 r3 E3 Hnext) in IHc.
          rewrite (sub_commas_other false [32%N] c3 r3 E3 Hnext).
          cbn [app] in IHc |- *.
          rewrite (comma_form_space c3 _ Hnext E3). exact IHc. }
      split; [exact Hgoal | intros _; exact Hgoal].
Qed.

Lemma rstrip_nonspace c r : isspace c = false -> rstrip (c :: r) = c :: rstrip r.
Proof.
  intros H. cbn [rstrip]. destruct (rstrip r); [rewrite H|]; reflexivity.
Qed.

Lemma comma_form_true_head c r : comma_form true (c :: r) = true -> isspace c = false.
Proof.
  cbn [comma_form]. destruct (c =? 44)%N eqn:E.
  - apply N.eqb_eq in E. subst c. reflexivity.
  - destruct (isspace c); [|reflexivity].
    cbn [negb]. rewrite andb_false_r. discriminate.
Qed.

(** A str in comma form, less its white space at the end, is a
    normalized str that [sub_commas] turns into the str. *)
Lemma comma_form_restored n : forall o after,
  (length o <= n)%nat -> comma_form after o = true ->
  spaced (rstrip o) = true /\ sub_commas after [] (rstrip o) = o.
Proof.
  induction n as [| n IH]; intros o after Hlen Hf.
  - destruct o; [split; reflexivity | cbn [length] in Hlen; lia].
  - destruct o as [| c r]; [split; reflexivity|].
    cbn [length] in Hlen.
    destruct (c =? 44)%N eqn:E44.
    + apply N.eqb_eq in E44. subst c.
      destruct r as [| c2 r']; [discriminate Hf|].
      cbn [comma_form] in Hf. change (44 =? 44)%N with true in Hf. cbv iota in Hf.
      apply andb_true_iff in Hf. destruct Hf as [H32 Hf].
      apply N.eqb_eq in H32. subst c2. cbn [length] in Hlen.
      destruct (IH r' true ltac:(lia) Hf) as [IHs IHr].
      rewrite (rstrip_nonspace 44%N _ eq_refl).
      destruct r' as [| c3 r3].
      * split; reflexivity.
      * pose proof (comma_form_true_head c3 r3 Hf) as Hc3.
        rewrite (rstrip_nonspace c3 r3 Hc3) in IHs, IHr.
        assert (E : rstrip (32%N :: c3 :: r3) = 32%N :: c3 :: rstrip r3).
        { change (rstrip (32%N :: c3 :: r3))
            with (match rstrip (c3 :: r3) with
                  | [] => if isspace 32 then [] else [32%N]
                  | kept => 32%N :: kept
                  end).
          rewrite (rstrip_nonspace c3 r3 Hc3). reflexivity. }
        rewrite E. split.
        -- change (spaced (44%N :: 32%N :: c3 :: rstrip r3))
             with (negb (isspace c3) && spaced (c3 :: rstrip r3)).
           rewrite Hc3, IHs. reflexivity.
        -- rewrite sub_commas_comma.
           rewrite (sub_commas_space_after [] 32%N _ eq_refl), IHr. reflexivity.
    + destruct (isspace c) eqn:Hsp.
      * cbn [comma_form] in Hf. rewrite E44, Hsp in Hf.
        apply andb_true_iff in Hf. destruct Hf as [Hf Hfr].
        apply andb_true_iff in Hf. destruct Hf as [Hf Hnext].
        apply andb_true_iff in Hf. destruct Hf as [H32 Hafter].
        apply N.eqb_eq in H32. subst c.
        apply negb_true_iff in Hafter. subst after.
        destruct r as [| c2 r2]; [discriminate Hnext|].
        apply andb_true_iff in Hnext. destruct Hnext as [Hc2 Hc2'].
        apply negb_true_iff in Hc2, Hc2'.
        destruct (IH (c2 :: r2) false ltac:(lia) Hfr) as [IHs IHr].
        rewrite (rstrip_nonspace c2 r2 Hc2) in IHs, IHr.
        assert (E : rstrip (32%N :: c2 :: r2) = 32%N :: c2 :: rstrip r2).
        { change (rstrip (32%N :: c2 :: r2))
            with (match rstrip (c2 :: r2) with
                  | [] => if isspace 32 then [] else [32%N]
                  | kept => 32%N :: kept
                  end).
          rewrite (rstrip_nonspace c2 r2 Hc2). reflexivity. }
        rewrite E. split.
        -- change (spaced (32%N :: c2 :: rstrip r2))
             with (negb (isspace c2) && spaced (c2 :: rstrip r2)).
           rewrite Hc2, IHs. reflexivity.
        -- rewrite (sub_commas_space [] 32%N _ eq_refl). cbn [app].
           rewrite (sub_commas_other false [32%N] c2 _ Hc2' Hc2).
           rewrite (sub_commas_other false [] c2 _ Hc2' Hc2) in IHr.
           cbn [app] in IHr |- *. rewrite IHr. reflexivity.
      * rewrite (comma_form_other after c r E44 Hsp) in Hf.
        destruct (IH r false ltac:(lia) Hf) as [IHs IHr].
        rewrite (rstrip_nonspace c r Hsp). split.
        -- cbn [spaced]. rewrite Hsp, IHs. reflexivity.
        -- rewrite (sub_commas_other after [] c _ E44 Hsp), IHr. reflexivity.
Qed.

Lemma sub_commas_head s :
  match s with c :: _ => isspace c = false | [] => True end ->
  match sub_commas false [] s with c :: _ => isspace c = false | [] => True end.
Proof.
  destruct s as [| c r]; [intros _; exact I|]. intros Hc.
  destruct (c =? 44)%N eqn:E44.
  - apply N.eqb_eq in E44. subst c. reflexivity.
  - rewrite (sub_commas_other false [] c r E44 Hc). exact Hc.
Qed.

(** X20.  [tidy_location] is idempotent, and its result is in comma
    form: every comma is followed by one U+0020 (also a comma at the
    very end, so the result can end in a space), and every other white
    space is a single U+0020 between two characters that are neither
    white space nor, the second, a comma. *)
Theorem tidy_location_idempotent s :
  tidy_location (Some (tidy_location s)) = tidy_location s
  /\ comma_form false (tidy_location s) = true.
Proof.
  pose proof (normalize_ws_form s) as Hn. unfold normalized in Hn.
  apply andb_true_iff in Hn. destruct Hn as [Hsp Hhead].
  assert (Hhead' : match normalize_ws s with
                   | c :: _ => isspace c = false
                   | [] => True
                   end).
  { destruct (normalize_ws s); [exact I | apply negb_true_iff; exact Hhead]. }
  assert (Hform : comma_form false (tidy_location s) = true).
  { unfold tidy_location.
    exact (proj2 (sub_commas_form _ (normalize_ws s) (Nat.le_refl _) Hsp) Hhead'). }
  split; [|exact Hform].
  destruct (comma_form_restored _ (tidy_location s) false (Nat.le_refl _) Hform)
    as [Hs Hr].
  pose proof (sub_commas_head _ Hhead') as Ho. fold (tidy_location s) in Ho.
  assert (Hl : lstrip (tidy_location s) = tidy_location s).
  { destruct (tidy_location s) as [| c r]; [reflexivity|].
    cbn [lstrip]. rewrite Ho. reflexivity. }
  unfold tidy_location at 1. unfold normalize_ws, strip.
  change (or_empty (Some (tidy_location s))) with (tidy_location s).
  rewrite Hl, (spaced_sub_spaces _ Hs). exact Hr.
Qed.

(** * audit: the cache is only a cache *)

Lemma pending_coherent st rid :
  coherent st -> pending st rid = pending (new_agent (durable st)) rid.
Proof.
  intros Hco. unfold pending at 1.
  destruct (_last_hash_by_run st !! rid) as [h|] eqn:Hc.
  - symmetry. apply Hco. exact Hc.
  - unfold pending, new_agent. cbn [_last_hash_by_run durable].
    rewrite lookup_empty. reflexivity.
Qed.

Lemma resolve_coherent e st rid :
  coherent st -> select_fails e = false ->
  _resolve_prev_hash e (_last_hash_by_run st) (durable st) rid
  = Ok (pending (new_agent (durable st)) rid).
Proof.
  intros Hco Hsel. rewrite <- (pending_coherent st rid Hco).
  unfold _resolve_prev_hash, pending, get_last_audit_hash.
  destruct (_last_hash_by_run st !! rid) as [h|]; [reflexivity|].
  rewrite Hsel. cbn [bind].
  destruct (last_by_id _) as [row|]; [|reflexivity].
  destruct (String.eqb_spec (a_event_hash row) EmptyString) as [-> | _]; reflexivity.
Qed.

Lemma new_agent_coherent w : coherent (new_agent w).
Proof. intros rid h H. cbn in H. rewrite lookup_empty in H. discriminate H. Qed.

Lemma pending_new_table w w' rid :
  audit_table w' = audit_table w ->
  pending (new_agent w') rid = pending (new_agent w) rid.
Proof. intros H. unfold pending, new_agent. cbn. rewrite H. reflexivity. Qed.

(** Every call keeps the cache coherent with the table. *)
Lemma coherent_step cfg e c st o st' :
  log_event cfg e c st = (o, st') ->
  ids_increasing (audit_table (durable st)) ->
  coherent st -> coherent st'.
Proof.
  intros H Hinc Hco.
  pose proof (log_event_ids_increasing cfg e c st o st' H Hinc) as Hinc'.
  destruct o as [ev | x].
  - apply log_event_ok in H.
    destruct H as (prev & line & t & _ & _ & Hev & _ & _ & _ & Happ & ->).
    apply append_audit_rows in Happ.
    destruct Happ as (row & -> & _ & Hrid & Hhash).
    cbn [durable audit_table] in Hinc'.
    intros rid h Hc. cbn [_last_hash_by_run durable] in Hc |- *.
    destruct (String.eqb_spec rid (c_run_id c)) as [-> | Hne].
    + rewrite lookup_insert_eq in Hc. injection Hc as <-.
      rewrite <- Hhash. apply pending_cold; [exact Hinc'|].
      cbn [audit_table]. rewrite rows_of_snoc, Hrid, Hev. cbn [run_id make_event].
      rewrite String.eqb_refl. apply last_snoc.
    + rewrite lookup_insert_ne in Hc by congruence.
      rewrite <- (Hco rid h Hc).
      unfold pending, new_agent. cbn [_last_hash_by_run durable audit_table].
      rewrite !lookup_empty.
      fold (rows_of rid (audit_table (durable st) ++ [row])).
      fold (rows_of rid (audit_table (durable st))).
      rewrite rows_of_snoc, Hrid, Hev. cbn [run_id make_event].
      destruct (String.eqb_spec (c_run_id c) rid) as [E | _]; [congruence|].
      rewrite app_nil_r. reflexivity.
  - apply log_event_raise in H. destruct H as [Hc Ht].
    intros rid h Hl. rewrite Hc in Hl.
    rewrite (pending_new_table _ _ rid Ht). apply Hco. exact Hl.
Qed.

Lemma run_coherent cfg cs : forall st,
  ids_increasing (audit_table (durable st)) -> coherent st ->
  coherent (snd (run cfg cs st)).
Proof.
  induction cs as [| [e c] cs IH]; intros st Hinc Hco; [exact Hco|].
  cbn [run]. destruct (log_event cfg e c st) as [o st1] eqn:Hstep.
  destruct (run cfg cs st1) as [os st2] eqn:Hrun. cbn [snd].
  specialize (IH st1). rewrite Hrun in IH. apply IH.
  - exact (log_event_ids_increasing cfg e c st o st1 Hstep Hinc).
  - exact (coherent_step cfg e c st o st1 Hstep Hinc Hco).
Qed.

(** Two agents over one world that resolve the same previous hash make
    the same of a call. *)
Lemma log_event_same_world cfg e c st1 st2 :
  durable st1 = durable st2 ->
  _resolve_prev_hash e (_last_hash_by_run st1) (durable st1) (c_run_id c)
  = _resolve_prev_hash e (_last_hash_by_run st2) (durable st2) (c_run_id c) ->
  fst (log_event cfg e c st1) = fst (log_event cfg e c st2)
  /\ durable (snd (log_event cfg e c st1)) = durable (snd (log_event cfg e c st2)).
Proof.
  intros Hw Hres. unfold log_event. cbv zeta.
  destruct (_resolve_prev_hash e (_last_hash_by_run st1) (durable st1) (c_run_id c))
    as [prev|]; rewrite <- Hres; [rewrite Hw | split; [reflexivity | exact Hw]].
  destruct (chain_next _ _) as [h|]; [|split; [reflexivity | exact Hw]].
  destruct (validate _) as [full|]; [|split; [reflexivity | exact Hw]].
  destruct (write_fails e); [split; [reflexivity | exact Hw]|].
  destruct (Orjson.dumps _) as [line|]; [|split; [reflexivity | exact Hw]].
  destruct (append_audit _ _ _) as [t|]; split; reflexivity.
Qed.

Lemma run_same_world cfg cs : forall st1 st2,
  durable st1 = durable st2 ->
  ids_increasing (audit_table (durable st1)) ->
  coherent st1 -> coherent st2 ->
  Forall (fun ec => select_fails (fst ec) = false) cs ->
  fst (run cfg cs st1) = fst (run cfg cs st2)
  /\ durable (snd (run cfg cs st1)) = durable (snd (run cfg cs st2)).
Proof.
  induction cs as [| [e c] cs IH]; intros st1 st2 Hw Hinc Hco1 Hco2 Hsel.
  - split; [reflexivity | exact Hw].
  - apply List.Forall_cons_iff in Hsel. destruct Hsel as [He Hsel]. cbn [fst] in He.
    assert (Hres : _resolve_prev_hash e (_last_hash_by_run st1) (durable st1) (c_run_id c)
                   = _resolve_prev_hash e (_last_hash_by_run st2) (durable st2) (c_run_id c)).
    { rewrite (resolve_coherent e st1 _ Hco1 He), (resolve_coherent e st2 _ Hco2 He), Hw.
      reflexivity. }
    destruct (log_event_same_world cfg e c st1 st2 Hw Hres) as [Ho Hd].
    cbn [run].
    destruct (log_event cfg e c st1) as [o1 s1] eqn:H1.
    destruct (log_event cfg e c st2) as [o2 s2] eqn:H2.
    cbn [fst snd] in Ho, Hd. subst o2.
    assert (Hinc2 : ids_increasing (audit_table (durable st2))) by (rewrite <- Hw; exact Hinc).
    destruct (IH s1 s2 Hd
                (log_event_ids_increasing cfg e c st1 o1 s1 H1 Hinc)
                (coherent_step cfg e c st1 o1 s1 H1 Hinc Hco1)
                (coherent_step cfg e c st2 o1 s2 H2 Hinc2 Hco2) Hsel) as [IHo IHd].
    destruct (run cfg cs s1) as [os1 t1]. destruct (run cfg cs s2) as [os2 t2].
    cbn [fst snd] in IHo, IHd |- *. split; [congruence | exact IHd].
Qed.

(** X21.  Restarting the agent changes nothing.  After any session of
    an agent that started over a table whose ids grow in append order,
    a new agent over the world that session left logs exactly what the
    old agent would have logged: for every later session whose store
    lookups do not fail, the outcomes of the calls are the same, one
    by one, and so are the table and the files left behind.  (The
    cache never holds a hash the table would not give.) *)
Theorem restart_changes_nothing cfg w before after :
  ids_increasing (audit_table w) ->
  Forall (fun ec => select_fails (fst ec) = false) after ->
  let st := snd (run cfg before (new_agent w)) in
  fst (run cfg after (new_agent (durable st))) = fst (run cfg after st)
  /\ durable (snd (run cfg after (new_agent (durable st))))
     = durable (snd (run cfg after st)).
Proof.
  intros Hinc Hsel st.
  assert (Hinc' : ids_increasing (audit_table (durable st)))
    by (apply run_ids_increasing; exact Hinc).
  apply run_same_world.
  - reflexivity.
  - exact Hinc'.
  - apply new_agent_coherent.
  - apply run_coherent; [exact Hinc | apply new_agent_coherent].
  - exact Hsel.
Qed.

Lemma restart_changes_nothing_witness :
  let later := [(demo_env 0, demo_call "r1" "s4" "ok" []);
                (demo_env 5, demo_call "r2" "t1" "ok" [])] in
  let st := snd (run demo_cfg demo_calls (new_agent empty_world)) in
  ids_increasing (audit_table empty_world)
  /\ Forall (fun ec => select_fails (fst ec) = false) later
  /\ fst (run demo_cfg later (new_agent (durable st))) = fst (run demo_cfg later st)
  /\ durable (snd (run demo_cfg later (new_agent (durable st))))
     = durable (snd (run demo_cfg later st)).
Proof.
  intros later st.
  assert (Hsel : Forall (fun ec => select_fails (fst ec) = false) later).
  { apply List.Forall_cons; [reflexivity|].
    apply List.Forall_cons; [reflexivity | apply List.Forall_nil]. }
  split; [exact I|]. split; [exact Hsel|].
  exact (restart_changes_nothing demo_cfg empty_world demo_calls later I Hsel).
Defined.
